(** * movis.layer.media: time-indexed media layers

    A shallow embedding of [src/movis/layer/media.py] (classes [Image],
    [ImageSequence] and [Video]) together with the properties of its
    time-to-content resolution.

    Conventions of the embedding:
    - The times of [Image] and [ImageSequence] are only compared, so they
      are the rationals the floats stand for ([Q]). The floats of [Video]
      are multiplied: they are binary64 values ([pyfloat]) whose product
      is rounded to nearest, ties to even, and overflows to infinity;
      [int(x)] on a float is truncation toward zero and raises on
      infinity and NaN.
    - A [numpy.ndarray] is its shape, its dtype and its elements in
      row-major order.
    - Methods run in a state-and-exception monad over the object they
      mutate; an exception leaves the state as it was when it was raised.
    - File decoding ([PIL.Image.open(..).convert("RGBA")]), the video
      reader and the [TimelineMixin] base class are collaborators that
      live outside this module; they are taken as an interface. *)

From Stdlib Require Import ZArith QArith Qround Qpower Lia Lqa.
From Stdlib Require Import PrimFloat SpecFloat FloatOps.
From stdpp Require Import base option list strings gmap.

Local Open Scope Z_scope.

(** ** Python values shared by the three layers *)

Definition path := string.

Module Numpy.

(** The integer dtypes; every element is then an integer. *)
Inductive dtype := uint8 | uint16 | int32 | int64.

Definition dtype_eqb (a b : dtype) : bool :=
  match a, b with
  | uint8, uint8 | uint16, uint16 | int32, int32 | int64, int64 => true
  | _, _ => false
  end.

Definition dtype_rank (d : dtype) : nat :=
  match d with uint8 => 0 | uint16 => 1 | int32 => 2 | int64 => 3 end%nat.

(** [np.result_type] on the dtypes above. *)
Definition result_type (a b : dtype) : dtype :=
  if (dtype_rank a <=? dtype_rank b)%nat then b else a.

Definition dtype_min (d : dtype) : Z :=
  match d with
  | uint8 | uint16 => 0
  | int32 => - 2 ^ 31
  | int64 => - 2 ^ 63
  end.

Definition dtype_max (d : dtype) : Z :=
  match d with
  | uint8 => 255
  | uint16 => 65535
  | int32 => 2 ^ 31 - 1
  | int64 => 2 ^ 63 - 1
  end.

Record ndarray := NdArray {
  shape : list nat;
  dtype_of : dtype;
  data : list Z   (* row-major *)
}.

Definition ndim (a : ndarray) : nat := length (shape a).

Definition numel (sh : list nat) : nat := foldr Nat.mul 1%nat sh.

(** What every array handed out by numpy satisfies. *)
Definition well_formed (a : ndarray) : Prop :=
  length (data a) = numel (shape a) /\
  Forall (fun x => dtype_min (dtype_of a) <= x <= dtype_max (dtype_of a)) (data a).

(** [a[i, j]] of a rank-2 array and [a[i, j, c]] of a rank-3 array. *)
Definition get2 (a : ndarray) (i j : nat) : option Z :=
  match shape a with
  | [h; w] =>
      if ((i <? h) && (j <? w))%nat then data a !! (i * w + j)%nat else None
  | _ => None
  end.

Definition get3 (a : ndarray) (i j c : nat) : option Z :=
  match shape a with
  | [h; w; k] =>
      if ((i <? h) && (j <? w) && (c <? k))%nat
      then data a !! ((i * w + j) * k + c)%nat else None
  | _ => None
  end.

(** [np.expand_dims(a, axis=-1)] *)
Definition expand_dims_last (a : ndarray) : ndarray :=
  {| shape := shape a ++ [1%nat]; dtype_of := dtype_of a; data := data a |}.

Definition scale_last (k : nat) (sh : list nat) : list nat :=
  match reverse sh with
  | [] => []
  | c :: pre => reverse pre ++ [(c * k)%nat]
  end.

(** [np.repeat(a, k, axis=-1)]: along the last axis every element is
    followed by its copies, which in row-major order is a repetition of
    each element in place. *)
Definition repeat_last (a : ndarray) (k : nat) : ndarray :=
  {| shape := scale_last k (shape a);
     dtype_of := dtype_of a;
     data := flat_map (fun x => replicate k x) (data a) |}.

(** [np.full_like(a, v, dtype=d)] *)
Definition full_like (a : ndarray) (v : Z) (d : dtype) : ndarray :=
  {| shape := shape a; dtype_of := d; data := map (fun _ => v) (data a) |}.

(** Rows of [cx] elements of [dx] alternate with rows of [cy] elements
    of [dy], [n] times. *)
Fixpoint interleave (n cx cy : nat) (dx dy : list Z) : list Z :=
  match n with
  | O => []
  | S n' =>
      take cx dx ++ take cy dy ++ interleave n' cx cy (drop cx dx) (drop cy dy)
  end.

Definition split_last (sh : list nat) : option (list nat * nat) :=
  match reverse sh with
  | [] => None
  | c :: pre => Some (reverse pre, c)
  end.

Definition shape_eqb (a b : list nat) : bool := bool_decide (a = b).

(** [np.concatenate([x, y], axis=-1)]; [None] where numpy raises
    (a rank-0 operand, or leading dimensions that differ). *)
Definition concatenate_last (x y : ndarray) : option ndarray :=
  match split_last (shape x), split_last (shape y) with
  | Some (px, cx), Some (py, cy) =>
      if shape_eqb px py then
        Some {| shape := px ++ [(cx + cy)%nat];
                dtype_of := result_type (dtype_of x) (dtype_of y);
                data := interleave (numel px) cx cy (data x) (data y) |}
      else None
  | _, _ => None
  end.

End Numpy.
Export Numpy.

(** ** Exceptions and the method monad *)

Inductive message :=
  | msg_none
  | msg_does_not_exist (p : path)
  | msg_must_have_4_channels
  | msg_invalid_shape (sh : list nat)
  | msg_invalid_type
  | msg_float_nan_to_integer
  | msg_float_infinity_to_integer.

Inductive exn :=
  | AssertionError (m : message)
  | ValueError (m : message)
  | OverflowError (m : message)
  | IndexError
  | KeyError (key : string)
  | AttributeError
  | ExternalError (what : string).   (* raised inside a collaborator *)

Inductive result (A : Type) :=
  | Ok (a : A)
  | Raise (e : exn).
Arguments Ok {A} a.
Arguments Raise {A} e.

Definition is_ok {A} (r : result A) : bool :=
  match r with Ok _ => true | Raise _ => false end.

(** A method over mutable state [S]: the outcome and the state it leaves. *)
Definition M (S A : Type) : Type := S -> result A * S.

Definition ret {S A} (a : A) : M S A := fun s => (Ok a, s).
Definition raise {S A} (e : exn) : M S A := fun s => (Raise e, s).
Definition bind {S A B} (m : M S A) (k : A -> M S B) : M S B :=
  fun s =>
    match m s with
    | (Ok a, s') => k a s'
    | (Raise e, s') => (Raise e, s')
    end.
Definition get {S} : M S S := fun s => (Ok s, s).
Definition put {S} (s : S) : M S unit := fun _ => (Ok tt, s).
Definition lift {S A} (r : result A) : M S A := fun s => (r, s).
Definition assert_ {S} (b : bool) (m : message) : M S unit :=
  if b then ret tt else raise (AssertionError m).

Declare Scope method_scope.
Delimit Scope method_scope with method.
Notation "x <- m ;; k" := (bind m (fun x => k))
  (at level 100, m at next level, right associativity) : method_scope.
Notation "m ;;; k" := (bind m (fun _ => k))
  (at level 100, right associativity) : method_scope.
Local Open Scope method_scope.

(** [int(x)] for a float [x]: the integer part, toward zero. *)
Definition int (x : Q) : Z := Z.quot (Qnum x) (Z.pos (Qden x)).

Definition Qltb (x y : Q) : bool := negb (Qle_bool y x).

(** ** Python floats

    A binary64 value: a rational (the two zeros are not told apart, which
    neither a comparison, a product nor [int] can observe), an infinity
    or NaN. *)

Inductive pyfloat :=
  | Finite (q : Q)
  | Infinity (negative : bool)
  | NaN.

Definition pow2 (e : Z) : Q := (2 ^ e)%Q.

(** [floor (log2 x)] for [x > 0]. *)
Definition ilog2 (x : Q) : Z :=
  let k := Z.log2 (Qnum x) - Z.log2 (Z.pos (Qden x)) in
  if Qle_bool (pow2 k) x then k else k - 1.

(** The exponent of the last of the 53 bits of [x > 0]; [-1074] in the
    subnormal range. *)
Definition ulp_exp (x : Q) : Z := Z.max (ilog2 x - 52) (-1074).

(** The nearest integer, the even one of two equally near. *)
Definition rne (x : Q) : Z :=
  let f := Qfloor x in
  match Qcompare (x - inject_Z f) (1 # 2) with
  | Lt => f
  | Gt => f + 1
  | Eq => if Z.even f then f else f + 1
  end.

(** The nearest multiple of [2 ^ e]. *)
Definition round_at (e : Z) (x : Q) : Q :=
  (inject_Z (rne (x / pow2 e)) * pow2 e)%Q.

Definition round_pos (x : Q) : Q := round_at (ulp_exp x) x.

(** The binary64 value a real result is rounded to (round to nearest,
    ties to even; [2 ^ 1024] and beyond is infinity). *)
Definition round64 (x : Q) : pyfloat :=
  match Qcompare x 0 with
  | Eq => Finite 0
  | Gt => let r := round_pos x in
          if Qle_bool (pow2 1024) r then Infinity false else Finite (Qred r)
  | Lt => let r := round_pos (- x) in
          if Qle_bool (pow2 1024) r then Infinity true else Finite (Qred (- r))
  end.

(** [x * y] *)
Definition float_mul (x y : pyfloat) : pyfloat :=
  match x, y with
  | NaN, _ | _, NaN => NaN
  | Finite a, Finite b => round64 (a * b)
  | Infinity s, Finite b | Finite b, Infinity s =>
      match Qcompare b 0 with
      | Eq => NaN
      | Gt => Infinity s
      | Lt => Infinity (negb s)
      end
  | Infinity s1, Infinity s2 => Infinity (xorb s1 s2)
  end.

(** [x < y] *)
Definition float_lt (x y : pyfloat) : bool :=
  match x, y with
  | NaN, _ | _, NaN => false
  | Finite a, Finite b => Qltb a b
  | Finite _, Infinity s => negb s
  | Infinity s, Finite _ => s
  | Infinity s1, Infinity s2 => s1 && negb s2
  end.

(** [int(x)] for a float [x]. *)
Definition float_to_int (x : pyfloat) : result Z :=
  match x with
  | Finite q => Ok (int q)
  | Infinity _ => Raise (OverflowError msg_float_infinity_to_integer)
  | NaN => Raise (ValueError msg_float_nan_to_integer)
  end.

(** A Python number that is an [int] or a [float]. *)
Inductive pynum :=
  | PyInt (n : Z)
  | PyFloat (x : pyfloat).

(** [d[key]] for a dict [d] whose entry for [key], if any, is [entry]. *)
Definition dict_get {A} (key : string) (entry : option A) : result A :=
  match entry with
  | Some a => Ok a
  | None => Raise (KeyError key)
  end.

(** A computation that touches no object. *)
Definition run_pure {A} (m : M unit A) : result A := fst (m tt).

(** [l[i]] and [l[i] = x] on a Python list: a negative index counts from
    the end, and an index outside the list raises [IndexError]. *)
Definition list_index {A} (l : list A) (i : Z) : option nat :=
  let n := Z.of_nat (length l) in
  let j := if i <? 0 then i + n else i in
  if (0 <=? j) && (j <? n) then Some (Z.to_nat j) else None.

Definition list_get {S A} (l : list A) (i : Z) : M S A :=
  match list_index l i with
  | Some j =>
      match l !! j with
      | Some a => ret a
      | None => raise IndexError
      end
  | None => raise IndexError
  end.

Definition list_set {S A} (l : list A) (i : Z) (x : A) : M S (list A) :=
  match list_index l i with
  | Some j => ret (<[j := x]> l)
  | None => raise IndexError
  end.

(** ** Collaborators

    What the module imports and does not define: PIL image objects, the
    [TimelineMixin] base class of [ImageSequence] (module [.mixin]), the
    imageio reader held by [Video]. *)

(** The dict [get_meta_data] returns, as far as [Video] reads it; a key
    that is missing has no entry. *)
Record MetaData := {
  meta_fps : option pyfloat;
  meta_size : option (nat * nat);
  meta_nframes : option pynum;
  meta_duration : option pyfloat
}.

Class Collaborators := {
  (* PIL.Image.Image, and [np.asarray(img.convert("RGBA"))] on it *)
  PILImage : Type;
  pil_convert_rgba : PILImage -> ndarray;
  (* [PILImage.fromarray(frame).convert("RGBA")] followed by [np.asarray] *)
  fromarray_rgba : ndarray -> result ndarray;
  (* TimelineMixin: its constructor and [get_state] *)
  TimelineMixin : Type;
  TimelineMixin_init : list Q -> list Q -> result TimelineMixin;
  get_state : TimelineMixin -> Q -> Z;
  (* the imageio reader: [get_data] may move the handle *)
  Reader : Type;
  get_meta_data : Reader -> result MetaData;
  get_data : Reader -> Z -> result ndarray * Reader
}.

(** The constructor argument [img_file], by the [isinstance] tests made on
    it. [InOther] is a value of any other type. *)
Inductive img_input `{Collaborators} :=
  | InPath (p : path)
  | InPIL (im : PILImage)
  | InArray (a : ndarray)
  | InOther.

(** The files as they are when a method runs. *)
Record FileSystem `{Collaborators} := {
  path_exists : path -> bool;
  (* [np.asarray(PILImage.open(p).convert("RGBA"))] *)
  pil_open_rgba : path -> result ndarray;
  imageio_get_reader : path -> result Reader
}.

(** An object together with the record of the files the image codec was
    asked to decode, oldest first. *)
Record Store (O : Type) := { self : O; opened : list path }.
Arguments self {O} s.
Arguments opened {O} s.

Definition get_self {O} : M (Store O) O := fun s => (Ok (self s), s).
Definition set_self {O} (o : O) : M (Store O) unit :=
  fun s => (Ok tt, {| self := o; opened := opened s |}).

Definition PILImage_open_rgba `{Collaborators} {O} (fs : FileSystem) (p : path)
  : M (Store O) ndarray :=
  fun s => (pil_open_rgba fs p, {| self := self s; opened := opened s ++ [p] |}).

(** ** class Image *)

Module Image.

Record t := {
  image : option ndarray;
  _img_file : option path;
  _duration : Q
}.

Section Methods.
Context `{Collaborators}.

Definition __init__ (fs : FileSystem) (img_file : img_input) (duration : Q)
  : M (list path) t :=
  match img_file with
  | InPath p =>
      assert_ (path_exists fs p) (msg_does_not_exist p) ;;;
      ret {| image := None; _img_file := Some p; _duration := duration |}
  | InPIL im =>
      let image := pil_convert_rgba im in
      ret {| image := Some image; _img_file := None; _duration := duration |}
  | InArray a =>
      if (ndim a =? 2)%nat then
        assert_ (dtype_eqb (dtype_of a) uint8) msg_none ;;;
        let img := expand_dims_last a in
        match concatenate_last (repeat_last img 3) (full_like img 255 uint8) with
        | Some img =>
            ret {| image := Some img; _img_file := None; _duration := duration |}
        | None => raise (ValueError msg_none)
        end
      else if (ndim a =? 3)%nat then
        assert_ (bool_decide (shape a !! 2%nat = Some 4%nat))
                msg_must_have_4_channels ;;;
        ret {| image := Some a; _img_file := None; _duration := duration |}
      else raise (ValueError (msg_invalid_shape (shape a)))
  | InOther => raise (ValueError msg_invalid_type)
  end.

Definition duration : M (Store t) Q :=
  self <- get_self ;; ret (_duration self).

Definition get_key (time : Q) : M (Store t) bool :=
  d <- duration ;;
  ret (Qle_bool 0 time && Qltb time d).

Definition _read_image (fs : FileSystem) : M (Store t) (option ndarray) :=
  self <- get_self ;;
  match image self with
  | None =>
      match _img_file self with
      | None => raise (AssertionError msg_none)
      | Some p =>
          img <- PILImage_open_rgba fs p ;;
          set_self {| image := Some img;
                      _img_file := _img_file self;
                      _duration := _duration self |}
      end
  | Some _ => ret tt
  end ;;;
  self <- get_self ;;
  ret (image self).

Definition size (fs : FileSystem) : M (Store t) (nat * nat) :=
  r <- _read_image fs ;;
  match r with
  | None => raise AttributeError
  | Some a =>
      let shape := take 2 (shape a) in
      w <- list_get shape 1 ;;
      h <- list_get shape 0 ;;
      ret (w, h)
  end.

Definition __call__ (fs : FileSystem) (time : Q) : M (Store t) (option ndarray) :=
  _read_image fs.

End Methods.
End Image.

(** ** class ImageSequence(TimelineMixin) *)

Module ImageSequence.

Record t `{Collaborators} := {
  timeline : TimelineMixin;     (* the state of the base class *)
  img_files : list img_input;
  images : list (option ndarray)
}.

Section Methods.
Context `{Collaborators}.

(** The body of [for i, img_file in enumerate(img_files)], from item
    [i] on. *)
Fixpoint __init__loop (fs : FileSystem) (i : nat) (rest : list img_input)
    (images : list (option ndarray)) : M (list path) (list (option ndarray)) :=
  match rest with
  | [] => ret images
  | img_file :: rest =>
      images <-
        match img_file with
        | InPath p =>
            assert_ (path_exists fs p) (msg_does_not_exist p) ;;;
            ret images
        | InPIL im =>
            list_set images (Z.of_nat i) (Some (pil_convert_rgba im))
        | InArray a =>
            list_set images (Z.of_nat i) (Some a)
        | InOther => raise (ValueError msg_invalid_type)
        end ;;
      __init__loop fs (S i) rest images
  end.

Definition __init__ (fs : FileSystem) (start_times end_times : list Q)
    (img_files : list img_input) : M (list path) t :=
  base <- lift (TimelineMixin_init start_times end_times) ;;
  images <- __init__loop fs 0 img_files (replicate (length img_files) None) ;;
  ret {| timeline := base; img_files := img_files; images := images |}.

Definition get_key (time : Q) : M (Store t) Z :=
  self <- get_self ;;
  let idx := get_state (timeline self) time in
  if idx <? 0 then ret (-1) else ret idx.

Definition __call__ (fs : FileSystem) (time : Q) : M (Store t) (option ndarray) :=
  self <- get_self ;;
  let idx := get_state (timeline self) time in
  if idx <? 0 then ret None
  else
    slot <- list_get (images self) idx ;;
    match slot with
    | None =>
        img_file <- list_get (img_files self) idx ;;
        match img_file with
        | InPath p =>
            image <- PILImage_open_rgba fs p ;;
            images' <- list_set (images self) idx (Some image) ;;
            set_self {| timeline := timeline self;
                        img_files := img_files self;
                        images := images' |}
        | _ => raise (AssertionError msg_none)
        end
    | Some _ => ret tt
    end ;;;
    self <- get_self ;;
    list_get (images self) idx.

End Methods.
End ImageSequence.

(** ** class Video *)

Module Video.

Record t `{Collaborators} := {
  video_file : path;
  _reader : Reader;
  _fps : pyfloat;
  _size : nat * nat;
  _n_frame : pynum;
  _duration : pyfloat
}.

Section Methods.
Context `{Collaborators}.

Definition __init__ (fs : FileSystem) (video_file : path) : result t :=
  run_pure (
    reader <- lift (imageio_get_reader fs video_file) ;;
    meta_data <- lift (get_meta_data reader) ;;
    fps <- lift (dict_get "fps" (meta_fps meta_data)) ;;
    size <- lift (dict_get "size" (meta_size meta_data)) ;;
    n_frame <- lift (dict_get "nframes" (meta_nframes meta_data)) ;;
    duration <- lift (dict_get "duration" (meta_duration meta_data)) ;;
    ret {| video_file := video_file;
           _reader := reader;
           _fps := fps;
           _size := size;
           _n_frame := n_frame;
           _duration := duration |}).

Definition fps : M t pyfloat := self <- get ;; ret (_fps self).
Definition size : M t (nat * nat) := self <- get ;; ret (_size self).
Definition n_frame : M t pynum := self <- get ;; ret (_n_frame self).
Definition duration : M t pyfloat := self <- get ;; ret (_duration self).

(** [self._reader.get_data(i)] *)
Definition reader_get_data (i : Z) : M t ndarray :=
  fun self =>
    let (frame, reader) := get_data (_reader self) i in
    (frame, {| video_file := video_file self;
               _reader := reader;
               _fps := _fps self;
               _size := _size self;
               _n_frame := _n_frame self;
               _duration := _duration self |}).

Definition get_key (time : pyfloat) : M t Z :=
  d <- duration ;;
  if float_lt time (Finite 0) || float_lt d time then ret (-1)
  else
    self <- get ;;
    frame_index <- lift (float_to_int (float_mul time (_fps self))) ;;
    ret frame_index.

Definition __call__ (time : pyfloat) : M t (option ndarray) :=
  self <- get ;;
  frame_index <- lift (float_to_int (float_mul time (_fps self))) ;;
  frame <- reader_get_data frame_index ;;
  pil_frame <- lift (fromarray_rgba frame) ;;
  ret (Some pil_frame).

End Methods.
End Video.


(** ** A reference implementation of the collaborators

    Used to run the layers on concrete inputs. *)

Module Reference.

(** Modelled from the spec: the state of [TimelineMixin] (module [.mixin]
    is imported by the source and not part of it), the start and the end
    times of the intervals in construction order. *)
Record timeline := { start_times : list Q; end_times : list Q }.

(** Modelled from the spec: the interval lookup behind
    [TimelineMixin.get_state], from interval [i] on. It returns the index
    of the first interval [[start, end)] the time falls in, or [-1] if it
    falls in none. *)
Fixpoint lookup_from (i : Z) (intervals : list (Q * Q)) (time : Q) : Z :=
  match intervals with
  | [] => -1
  | (s, e) :: rest =>
      if Qle_bool s time && Qltb time e then i
      else lookup_from (i + 1) rest time
  end.

(** Modelled from the spec: [TimelineMixin.get_state], the index of the
    interval that holds the time, or [-1]. *)
Definition lookup (tl : timeline) (time : Q) : Z :=
  lookup_from 0 (zip (start_times tl) (end_times tl)) time.

(** A reader over a fixed list of frames; the handle remembers the
    indices it was asked for. *)
Record reader := { frames : list ndarray; requested : list Z }.

Definition reader_meta (r : reader) : result MetaData :=
  Ok {| meta_fps := Some (Finite 1);
        meta_size := Some (1%nat, 1%nat);
        meta_nframes := Some (PyInt (Z.of_nat (length (frames r))));
        meta_duration :=
          Some (Finite (inject_Z (Z.of_nat (length (frames r))))) |}.

Definition reader_read (r : reader) (i : Z) : result ndarray * reader :=
  (match (if 0 <=? i then frames r !! Z.to_nat i else None) with
   | Some f => Ok f
   | None => Raise IndexError
   end,
   {| frames := frames r; requested := requested r ++ [i] |}).

(** An image object is represented by the array its RGBA conversion
    yields. *)
#[export] Instance collaborators : Collaborators := {|
  PILImage := ndarray;
  pil_convert_rgba := fun a => a;
  fromarray_rgba := fun a => Ok a;
  TimelineMixin := timeline;
  TimelineMixin_init := fun s e => Ok {| start_times := s; end_times := e |};
  get_state := lookup;
  Reader := reader;
  get_meta_data := reader_meta;
  get_data := reader_read
|}.

Definition pixel (r g b a : Z) : ndarray :=
  {| shape := [1; 1; 4]%nat; dtype_of := uint8; data := [r; g; b; a] |}.

(** One file, ["a.png"], holding a single red pixel. *)
Definition fs_one : FileSystem :=
  {| path_exists := fun p => bool_decide (p = "a.png"%string);
     pil_open_rgba := fun p =>
       if bool_decide (p = "a.png"%string) then Ok (pixel 255 0 0 255)
       else Raise (ExternalError "FileNotFoundError");
     imageio_get_reader := fun _ => Raise (ExternalError "OSError") |}.

(** The same directory after the file was removed. *)
Definition fs_empty : FileSystem :=
  {| path_exists := fun _ => false;
     pil_open_rgba := fun _ => Raise (ExternalError "FileNotFoundError");
     imageio_get_reader := fun _ => Raise (ExternalError "OSError") |}.

End Reference.

(** ** Vocabulary of the statements *)

(** What [Video.__call__] delivers once its frame index is [i]: the frame
    the reader hands out at [i], converted to RGBA. *)
Definition Video_fetch `{Collaborators} (i : Z) : M Video.t (option ndarray) :=
  frame <- Video.reader_get_data i ;;
  pil_frame <- lift (fromarray_rgba frame) ;;
  ret (Some pil_frame).

(** A two-frame clip at one frame per second. *)
Definition clip_reader : Reference.reader :=
  {| Reference.frames := [Reference.pixel 1 1 1 255; Reference.pixel 2 2 2 255];
     Reference.requested := [] |}.

Definition clip : @Video.t Reference.collaborators :=
  @Video.Build_t Reference.collaborators
    "clip.mp4"%string clip_reader (Finite 1) (1%nat, 1%nat) (PyInt 2) (Finite 2).

(** The float written [0.3]. *)
Definition float_0_3 : pyfloat :=
  Finite (5404319552844595 # 18014398509481984).

(** A five-frame clip at ten frames per second, half a second long. *)
Definition clip10 : @Video.t Reference.collaborators :=
  @Video.Build_t Reference.collaborators
    "clip10.mp4"%string
    {| Reference.frames :=
         [Reference.pixel 0 0 0 255; Reference.pixel 1 1 1 255;
          Reference.pixel 2 2 2 255; Reference.pixel 3 3 3 255;
          Reference.pixel 4 4 4 255];
       Reference.requested := [] |}
    (Finite 10) (1%nat, 1%nat) (PyInt 5) (Finite (1 # 2)).

(** The four channels a gray level becomes. *)
Definition gray_to_rgba (v : Z) : list Z := [v; v; v; 255].

(** A grayscale image of one row and two columns. *)
Definition gray_1x2 : ndarray :=
  {| shape := [1; 2]%nat; dtype_of := uint8; data := [7; 9] |}.

(** The cache slot an asset gets when an image sequence is built. *)
Definition slot_of `{Collaborators} (x : img_input) : option ndarray :=
  match x with
  | InPIL im => Some (pil_convert_rgba im)
  | InArray a => Some a
  | InPath _ | InOther => None
  end.

(** Assets and slots are equally many, and an empty slot belongs to a path. *)
Definition ImageSequence_inv `{Collaborators} (s : ImageSequence.t) : Prop :=
  length (ImageSequence.images s) = length (ImageSequence.img_files s) /\
  forall i, ImageSequence.images s !! i = Some None ->
            exists p, ImageSequence.img_files s !! i = Some (InPath p).

(** The calls a compositor makes on an image sequence; each decode sees
    the files as they are at that moment. *)
Inductive ImageSequence_op `{Collaborators} :=
  | Seq_get_key (time : Q)
  | Seq_call (fs : FileSystem) (time : Q).

Definition ImageSequence_step `{Collaborators} (st : Store ImageSequence.t)
    (op : ImageSequence_op) : Store ImageSequence.t :=
  match op with
  | Seq_get_key time => snd (ImageSequence.get_key time st)
  | Seq_call fs time => snd (ImageSequence.__call__ fs time st)
  end.

Definition ImageSequence_run `{Collaborators} (ops : list ImageSequence_op)
    (st : Store ImageSequence.t) : Store ImageSequence.t :=
  foldl ImageSequence_step st ops.

(** The slot an evaluation resolves to, when the index is within the
    sequence. *)
Definition resolved `{Collaborators} (s : ImageSequence.t)
    (op : ImageSequence_op) : option nat :=
  match op with
  | Seq_get_key _ => None
  | Seq_call _ time =>
      let idx := get_state (ImageSequence.timeline s) time in
      if (0 <=? idx) && (idx <? Z.of_nat (length (ImageSequence.images s)))
      then Some (Z.to_nat idx) else None
  end.

Definition evaluated `{Collaborators} (s : ImageSequence.t)
    (ops : list ImageSequence_op) : gset nat :=
  list_to_set (omap (resolved s) ops).

Definition is_absent (images : list (option ndarray)) (i : nat) : bool :=
  match images !! i with
  | Some None => true
  | _ => false
  end.

Definition absent (images : list (option ndarray)) : gset nat :=
  list_to_set (filter (fun i => is_absent images i) (seq 0 (length images))).

(** The call, made in this state, did not ask the codec for a file, or
    the codec delivered and the call returned. *)
Definition decode_succeeds `{Collaborators} (st : Store ImageSequence.t)
    (op : ImageSequence_op) : Prop :=
  match op with
  | Seq_get_key _ => True
  | Seq_call fs time =>
      opened (snd (ImageSequence.__call__ fs time st)) <> opened st ->
      is_ok (fst (ImageSequence.__call__ fs time st)) = true
  end.

(** Every decode asked for during the run succeeds. *)
Fixpoint decodes_succeed `{Collaborators} (st : Store ImageSequence.t)
    (ops : list ImageSequence_op) : Prop :=
  match ops with
  | [] => True
  | op :: ops' =>
      decode_succeeds st op /\ decodes_succeed (ImageSequence_step st op) ops'
  end.

(** What a call may do to the object: nothing, or fill one empty slot. *)
Definition fills `{Collaborators} (s s' : ImageSequence.t) : Prop :=
  ImageSequence.timeline s' = ImageSequence.timeline s /\
  ImageSequence.img_files s' = ImageSequence.img_files s /\
  (ImageSequence.images s' = ImageSequence.images s \/
   exists i img, ImageSequence.images s !! i = Some None /\
                 ImageSequence.images s' = <[i := Some img]> (ImageSequence.images s)).

(** The calls a compositor makes on a still image. *)
Inductive Image_op `{Collaborators} :=
  | Img_get_key (time : Q)
  | Img_call (fs : FileSystem) (time : Q)
  | Img_size (fs : FileSystem).

Definition Image_step `{Collaborators} (st : Store Image.t) (op : Image_op)
  : Store Image.t :=
  match op with
  | Img_get_key time => snd (Image.get_key time st)
  | Img_call fs time => snd (Image.__call__ fs time st)
  | Img_size fs => snd (Image.size fs st)
  end.

Definition Image_run `{Collaborators} (ops : list Image_op) (st : Store Image.t)
  : Store Image.t :=
  foldl Image_step st ops.

(** A rank-2 array of 64-bit integers. *)
Definition gray_int64 : ndarray :=
  {| shape := [1; 2]%nat; dtype_of := int64; data := [7; 9] |}.

(** A still image over ["a.png"], not decoded yet. *)
Definition still_pending : Store Image.t :=
  {| self := {| Image.image := None;
                Image._img_file := Some "a.png"%string;
                Image._duration := 2 |};
     opened := [] |}.

(** A sequence of a file and a raw grayscale array, one second each. *)
Definition two_assets : list (@img_input Reference.collaborators) :=
  [InPath "a.png"%string; InArray gray_1x2].

Definition two_assets_seq : @ImageSequence.t Reference.collaborators :=
  @ImageSequence.Build_t Reference.collaborators
    {| Reference.start_times := [0; 1]%Q; Reference.end_times := [1; 2]%Q |}
    two_assets
    [None; Some gray_1x2].

(** A sequence of one raw grayscale array shown during [[0, 1)]. *)
Definition one_array_seq : @ImageSequence.t Reference.collaborators :=
  @ImageSequence.Build_t Reference.collaborators
    {| Reference.start_times := [0%Q]; Reference.end_times := [1%Q] |}
    [InArray gray_1x2]
    [Some gray_1x2].

(** An asset [ImageSequence.__init__] lets pass. *)
Definition asset_ok `{Collaborators} (fs : FileSystem) (x : img_input) : bool :=
  match x with
  | InPath p => path_exists fs p
  | InPIL _ | InArray _ => true
  | InOther => false
  end.

(** The exception [ImageSequence.__init__] raises at an asset it does not
    let pass. *)
Definition asset_error `{Collaborators} (x : img_input) : exn :=
  match x with
  | InPath p => AssertionError (msg_does_not_exist p)
  | _ => ValueError msg_invalid_type
  end.


(** The value of a machine float, to compare [round64] with the
    multiplication of the machine. *)
Definition machine_value (x : PrimFloat.float) : pyfloat :=
  match Prim2SF x with
  | S754_zero _ => Finite 0
  | S754_infinity s => Infinity s
  | S754_nan => NaN
  | S754_finite s m e =>
      Finite (Qred ((if s then -1 else 1) * inject_Z (Z.pos m) * pow2 e))
  end.

(** [float_mul] on the values of [x] and [y] is the value of the machine
    product of [x] and [y]. *)
Definition agrees_with_machine (xy : PrimFloat.float * PrimFloat.float) : bool :=
  match float_mul (machine_value (fst xy)) (machine_value (snd xy)),
        machine_value (PrimFloat.mul (fst xy) (snd xy)) with
  | Finite (Qmake n d), Finite (Qmake n' d') => (n =? n') && (d =? d')%positive
  | Infinity s, Infinity s' => Bool.eqb s s'
  | NaN, NaN => true
  | _, _ => false
  end.

(** Products across the range of binary64: inexact ones, ties, subnormal
    results, underflow to zero, overflow, infinities and NaN. *)
Definition machine_products : list (PrimFloat.float * PrimFloat.float) :=
  [(0x1.3333333333333p-2, 0x1.4p+3);
   (0x1.999999999999ap-4, 0x1.8p+1);
   (0x1.999999999999ap-4, 0x1.999999999999ap-4);
   (-0x1.6666666666666p-1, 0x1.df851eb851eb8p+4);
   (0x1.0000000000001p+0, 0x1.0000000000001p+0);
   (0x1.0000000000003p+0, 0x1.8p-1);
   (0x1.e240ca00f9c9bp+16, 0x1.7f9db22d0e56p+4);
   (0x1p-1074, 0x1p-1);
   (0x1p-1074, 0x1.0000000000001p-1);
   (0x1.8p-1073, 0x1p-1);
   (0x1p-1074, 0x1.8p+0);
   (0x1p-537, 0x1p-538);
   (0x1.fffffffffffffp-1023, 0x1.ffffffffffffep-1);
   (-0x1.2p-1030, 0x1.d99999999999ap+1);
   (0x1.1ccf385ebc8ap+1023, 0x1.ep+4);
   (0x1.fffffffffffffp+1023, 0x1p+0);
   (0x1.fffffffffffffp+1023, 0x1.0000000000001p+0);
   (-0x1p+512, 0x1p+512);
   (0x1.fffffffffffffp+511, 0x1.0000000000000p+512);
   (PrimFloat.infinity, 0x1p+0);
   (PrimFloat.infinity, -0x1p+0);
   (PrimFloat.neg_infinity, PrimFloat.infinity);
   (PrimFloat.infinity, 0x0p+0);
   (PrimFloat.nan, 0x1p+0);
   (0x0p+0, -0x1.8p+1)]%float.

(** [math.floor(x)] for a float [x]. *)
Definition float_floor (x : pyfloat) : result Z :=
  match x with
  | Finite q => Ok (Qfloor q)
  | Infinity _ => Raise (OverflowError msg_float_infinity_to_integer)
  | NaN => Raise (ValueError msg_float_nan_to_integer)
  end.

(** * Properties *)

(** ** Arithmetic of [int] and of the comparisons *)

Lemma Qltb_lt (x y : Q) : Qltb x y = true <-> (x < y)%Q.
Proof.
  unfold Qltb. rewrite negb_true_iff. split.
  - intros Hb. apply Qnot_le_lt. intros Hle.
    apply Qle_bool_iff in Hle. congruence.
  - intros Hlt. destruct (Qle_bool y x) eqn:E; [|reflexivity].
    apply Qle_bool_iff in E. exfalso. exact (Qlt_not_le _ _ Hlt E).
Qed.

Lemma Qltb_ge (x y : Q) : Qltb x y = false <-> (y <= x)%Q.
Proof.
  unfold Qltb. rewrite negb_false_iff. apply Qle_bool_iff.
Qed.

Lemma int_floor_nonneg (x : Q) : (0 <= x)%Q -> int x = Qfloor x.
Proof.
  destruct x as [n d]. unfold Qle, int, Qfloor. simpl. intros Hn.
  apply Z.quot_div_nonneg; lia.
Qed.

Lemma int_ceiling_nonpos (x : Q) : (x <= 0)%Q -> int x = Qceiling x.
Proof.
  destruct x as [n d]. unfold Qle, int, Qceiling, Qfloor. simpl. intros Hn.
  rewrite <- (Z.opp_involutive n) at 1. rewrite Z.quot_opp_l by lia.
  f_equal. apply Z.quot_div_nonneg; lia.
Qed.

(** ** Rounding to binary64 is monotone *)

Section Rounding.
Local Open Scope Q_scope.

Lemma pow2_pos (e : Z) : 0 < pow2 e.
Proof. apply Qpower_0_lt. reflexivity. Qed.

Lemma pow2_plus (a b : Z) : pow2 (a + b) == pow2 a * pow2 b.
Proof. apply Qpower_plus. discriminate. Qed.

Lemma pow2_le (a b : Z) : (a <= b)%Z -> pow2 a <= pow2 b.
Proof. intros H. apply Qpower_le_compat_l; [exact H|discriminate]. Qed.

Lemma pow2_lt (a b : Z) : (a < b)%Z -> pow2 a < pow2 b.
Proof. intros H. apply Qpower_lt_compat_l; [exact H|reflexivity]. Qed.

Lemma pow2_lt_inv (a b : Z) : pow2 a < pow2 b -> (a < b)%Z.
Proof. intros H. apply (Qpower_lt_compat_l_inv 2); [exact H|reflexivity]. Qed.

Lemma pow2_int (n : Z) : (0 <= n)%Z -> pow2 n == inject_Z (2 ^ n).
Proof. intros H. symmetry. apply (Zpower_Qpower 2 n H). Qed.

Lemma Q_as_fraction (x : Q) : x * inject_Z (Z.pos (Qden x)) == inject_Z (Qnum x).
Proof.
  destruct x as [n d]. unfold Qeq, Qmult, inject_Z. simpl. lia.
Qed.

Lemma ilog2_spec (x : Q) : 0 < x -> pow2 (ilog2 x) <= x /\ x < pow2 (ilog2 x + 1).
Proof.
  intros Hx.
  assert (Hn : (0 < Qnum x)%Z).
  { destruct x as [n d]. unfold Qlt in Hx. simpl in *. lia. }
  pose proof (Z.log2_spec (Qnum x) Hn) as [Hn1 Hn2].
  pose proof (Z.log2_spec (Z.pos (Qden x)) eq_refl) as [Hd1 Hd2].
  pose proof (Z.log2_nonneg (Qnum x)) as Hln.
  pose proof (Z.log2_nonneg (Z.pos (Qden x))) as Hld.
  set (ln := Z.log2 (Qnum x)) in *. set (ld := Z.log2 (Z.pos (Qden x))) in *.
  rewrite Zle_Qle, <- pow2_int in Hn1, Hd1 by lia.
  rewrite Zlt_Qlt, <- pow2_int in Hn2, Hd2 by lia.
  pose proof (Q_as_fraction x) as Hfrac.
  assert (HD : 0 < inject_Z (Z.pos (Qden x))) by reflexivity.
  set (D := inject_Z (Z.pos (Qden x))) in *. set (N := inject_Z (Qnum x)) in *.
  unfold ilog2. fold ln ld.
  destruct (Qle_bool (pow2 (ln - ld)) x) eqn:Hk.
  - apply Qle_bool_iff in Hk. split; [exact Hk|].
    pose proof (pow2_plus (ln - ld + 1) ld) as Hp.
    replace (ln - ld + 1 + ld)%Z with (Z.succ ln) in Hp by lia.
    pose proof (pow2_pos (ln - ld + 1)). pose proof (pow2_pos ld).
    nra.
  - assert (Hlt : x < pow2 (ln - ld)).
    { apply Qnot_le_lt. intros Hle. apply Qle_bool_iff in Hle. congruence. }
    replace (ln - ld - 1 + 1)%Z with (ln - ld)%Z by lia.
    split; [|exact Hlt].
    pose proof (pow2_plus (ln - ld - 1) (Z.succ ld)) as Hp.
    replace (ln - ld - 1 + Z.succ ld)%Z with ln in Hp by lia.
    pose proof (pow2_pos (ln - ld - 1)). pose proof (pow2_pos (Z.succ ld)).
    nra.
Qed.

Lemma ilog2_mono (x y : Q) : 0 < x -> x <= y -> (ilog2 x <= ilog2 y)%Z.
Proof.
  intros Hx Hxy.
  destruct (ilog2_spec x Hx) as [Hx1 _].
  destruct (ilog2_spec y (Qlt_le_trans _ _ _ Hx Hxy)) as [_ Hy2].
  assert (H : pow2 (ilog2 x) < pow2 (ilog2 y + 1)).
  { eapply Qle_lt_trans; [exact Hx1|]. eapply Qle_lt_trans; eassumption. }
  apply pow2_lt_inv in H. lia.
Qed.

Lemma rne_comp (x y : Q) : x == y -> rne x = rne y.
Proof.
  intros H. unfold rne. rewrite <- (Qfloor_comp x y H).
  assert (Hsub : x - inject_Z (Qfloor x) == y - inject_Z (Qfloor x)).
  { apply Qplus_comp; [exact H|reflexivity]. }
  rewrite (Qcompare_comp _ _ Hsub _ _ (Qeq_refl (1 # 2))). reflexivity.
Qed.

Lemma rne_bounds (x : Q) :
  inject_Z (rne x) - (1 # 2) <= x /\ x <= inject_Z (rne x) + (1 # 2).
Proof.
  pose proof (Qfloor_le x) as Hlo. pose proof (Qlt_floor x) as Hhi.
  rewrite inject_Z_plus in Hhi. change (inject_Z 1) with 1 in Hhi. unfold rne.
  destruct (Qcompare_spec (x - inject_Z (Qfloor x)) (1 # 2)) as [He|Hl|Hg].
  - destruct (Z.even (Qfloor x));
      [|rewrite inject_Z_plus; change (inject_Z 1) with 1]; lra.
  - lra.
  - rewrite inject_Z_plus. change (inject_Z 1) with 1. lra.
Qed.

Lemma rne_mono (x y : Q) : x <= y -> (rne x <= rne y)%Z.
Proof.
  intros Hxy. destruct (Z.le_gt_cases (rne x) (rne y)) as [H|H]; [exact H|].
  exfalso.
  destruct (rne_bounds x) as [Hx _]. destruct (rne_bounds y) as [_ Hy].
  assert (H1 : inject_Z (rne y) + 1 <= inject_Z (rne x)).
  { change 1 with (inject_Z 1). rewrite <- inject_Z_plus, <- Zle_Qle. lia. }
  assert (Heq : x == y) by lra.
  apply rne_comp in Heq. lia.
Qed.

Lemma rne_int (n : Z) : rne (inject_Z n) = n.
Proof.
  unfold rne. rewrite Qfloor_Z.
  assert (H : inject_Z n - inject_Z n == 0) by ring.
  rewrite (Qcompare_comp _ _ H _ _ (Qeq_refl (1 # 2))). reflexivity.
Qed.

Lemma round_at_mono (e : Z) (x y : Q) : x <= y -> round_at e x <= round_at e y.
Proof.
  intros Hxy. unfold round_at. pose proof (pow2_pos e) as He.
  apply Qmult_le_compat_r; [|lra].
  rewrite <- Zle_Qle. apply rne_mono.
  apply Qmult_le_compat_r; [exact Hxy|].
  apply Qlt_le_weak, Qinv_lt_0_compat, He.
Qed.

Lemma round_at_multiple (e : Z) (n : Z) :
  round_at e (inject_Z n * pow2 e) == inject_Z n * pow2 e.
Proof.
  unfold round_at. pose proof (pow2_pos e) as He.
  assert (H : inject_Z n * pow2 e / pow2 e == inject_Z n) by (field; lra).
  rewrite (rne_comp _ _ H), rne_int. reflexivity.
Qed.

Lemma pow2_multiple (b e : Z) : (e <= b)%Z -> pow2 b == inject_Z (2 ^ (b - e)) * pow2 e.
Proof.
  intros H. rewrite <- pow2_int by lia. rewrite <- pow2_plus.
  replace (b - e + e)%Z with b by lia. reflexivity.
Qed.

Lemma round_at_ge_multiple (e n : Z) (x : Q) :
  inject_Z n * pow2 e <= x -> inject_Z n * pow2 e <= round_at e x.
Proof.
  intros H. apply Qle_trans with (round_at e (inject_Z n * pow2 e)).
  - rewrite round_at_multiple. apply Qle_refl.
  - apply round_at_mono. exact H.
Qed.

Lemma round_at_le_multiple (e n : Z) (x : Q) :
  x <= inject_Z n * pow2 e -> round_at e x <= inject_Z n * pow2 e.
Proof.
  intros H. apply Qle_trans with (round_at e (inject_Z n * pow2 e)).
  - apply round_at_mono. exact H.
  - rewrite round_at_multiple. apply Qle_refl.
Qed.

Lemma round_pos_nonneg (x : Q) : 0 <= x -> 0 <= round_pos x.
Proof.
  intros Hx. unfold round_pos.
  pose proof (round_at_ge_multiple (ulp_exp x) 0 x) as H.
  change (inject_Z 0) with 0 in H. lra.
Qed.

Lemma round_pos_mono (x y : Q) : 0 < x -> x <= y -> round_pos x <= round_pos y.
Proof.
  intros Hx Hxy. assert (Hy : 0 < y) by lra.
  pose proof (ilog2_mono x y Hx Hxy) as Hlog.
  unfold round_pos.
  destruct (Z.eq_dec (ulp_exp x) (ulp_exp y)) as [Heq|Hne].
  - rewrite Heq. apply round_at_mono. exact Hxy.
  - assert (Hlt : (ulp_exp x < ulp_exp y)%Z) by (unfold ulp_exp in *; lia).
    assert (Hey : (ulp_exp y <= ilog2 y)%Z) by (unfold ulp_exp in *; lia).
    assert (Hlog' : (ilog2 x + 1 <= ilog2 y)%Z) by (unfold ulp_exp in *; lia).
    destruct (ilog2_spec x Hx) as [_ Hx2]. destruct (ilog2_spec y Hy) as [Hy1 _].
    pose proof (pow2_le _ _ Hlog') as Hb.
    pose proof (pow2_multiple (ilog2 y) (ulp_exp x)) as Hmx.
    pose proof (pow2_multiple (ilog2 y) (ulp_exp y) Hey) as Hmy.
    pose proof (round_at_le_multiple (ulp_exp x)
                  (2 ^ (ilog2 y - ulp_exp x)) x) as Hrx.
    pose proof (round_at_ge_multiple (ulp_exp y)
                  (2 ^ (ilog2 y - ulp_exp y)) y) as Hry.
    assert (Hmx' := Hmx ltac:(lia)).
    lra.
Qed.

Lemma round64_mono_nonneg (x y p q : Q) :
  0 <= x -> x <= y -> round64 x = Finite p -> round64 y = Finite q ->
  0 <= p /\ p <= q.
Proof.
  intros Hx Hxy. unfold round64. cbv zeta.
  destruct (Qcompare_spec x 0) as [Hx0|Hx0|Hx0]; [|lra|];
    destruct (Qcompare_spec y 0) as [Hy0|Hy0|Hy0]; try lra.
  - intros Hp Hq. injection Hp as <-. injection Hq as <-. lra.
  - intros Hp. injection Hp as <-.
    destruct (Qle_bool (pow2 1024) (round_pos y)); [discriminate|].
    intros Hq. injection Hq as <-. rewrite Qred_correct.
    split; [lra|]. apply round_pos_nonneg. lra.
  - destruct (Qle_bool (pow2 1024) (round_pos x)); [discriminate|].
    destruct (Qle_bool (pow2 1024) (round_pos y)); [discriminate|].
    intros Hp Hq. injection Hp as <-. injection Hq as <-.
    rewrite !Qred_correct. split.
    + apply round_pos_nonneg. lra.
    + apply round_pos_mono; assumption.
Qed.

End Rounding.

(** On each of the sample products [float_mul] computes the value of the
    machine's binary64 product; among them [0.3 * 10.0 = 3.0]. *)
Lemma float_mul_agrees_with_machine :
  forallb agrees_with_machine machine_products = true.
Proof. vm_compute. reflexivity. Qed.

Lemma float_mul_0_3_by_10 : float_mul float_0_3 (Finite 10) = Finite 3.
Proof. vm_compute. reflexivity. Qed.

(** ** Keys *)

Section Keys.
Context `{Collaborators}.

Lemma Image_get_key_eq (time : Q) (st : Store Image.t) :
  Image.get_key time st =
  (Ok (Qle_bool 0 time && Qltb time (Image._duration (self st))), st).
Proof. reflexivity. Qed.

Lemma Image_init_duration fs img_file d log img log' :
  Image.__init__ fs img_file d log = (Ok img, log') ->
  Image._duration img = d.
Proof.
  unfold Image.__init__, bind, assert_, ret, raise.
  destruct img_file as [p|im|a|]; simpl.
  - destruct (path_exists fs p); simpl; intros [= <- _]; reflexivity.
  - intros [= <- _]; reflexivity.
  - destruct (ndim a =? 2)%nat.
    + destruct (dtype_eqb (dtype_of a) uint8); simpl; [|discriminate].
      destruct (concatenate_last _ _); simpl; [|discriminate].
      intros [= <- _]; reflexivity.
    + destruct (ndim a =? 3)%nat; [|discriminate].
      destruct (bool_decide _); simpl; [|discriminate].
      intros [= <- _]; reflexivity.
  - discriminate.
Qed.

(** C4. A still image built from any accepted input with duration [d]
    answers [get_key t] with true exactly when [0 <= t < d]; in particular
    the key is false at [t = d] and at every negative [t]. This holds in
    every later state of the layer (whatever the cache holds). *)
Theorem Image_get_key_half_open fs img_file (d : Q) log img log'
    (st : Store Image.t) (t : Q) :
  Image.__init__ fs img_file d log = (Ok img, log') ->
  Image._duration (self st) = Image._duration img ->
  (exists b, Image.get_key t st = (Ok b, st) /\
             (b = true <-> (0 <= t /\ t < d)%Q)) /\
  Image.get_key d st = (Ok false, st) /\
  ((t < 0)%Q -> Image.get_key t st = (Ok false, st)).
Proof.
  intros Hinit Hd. apply Image_init_duration in Hinit.
  rewrite !Image_get_key_eq, Hd, Hinit. repeat split.
  - eexists; split; [reflexivity|].
    rewrite andb_true_iff, Qle_bool_iff, Qltb_lt. tauto.
  - f_equal. f_equal. apply andb_false_iff. right.
    apply Qltb_ge, Qle_refl.
  - intros Hneg. f_equal. f_equal. apply andb_false_iff. left.
    destruct (Qle_bool 0 t) eqn:E; [|reflexivity].
    apply Qle_bool_iff in E. exfalso. exact (Qlt_not_le _ _ Hneg E).
Qed.

Lemma Video_get_key_eq (v : Video.t) (time : pyfloat) :
  Video.get_key time v =
  (if float_lt time (Finite 0) || float_lt (Video._duration v) time then Ok (-1)
   else float_to_int (float_mul time (Video._fps v)), v).
Proof.
  unfold Video.get_key, Video.duration, bind, get, ret, lift. simpl.
  destruct (float_lt time (Finite 0) || float_lt (Video._duration v) time);
    [reflexivity|].
  destruct (float_to_int (float_mul time (Video._fps v))); reflexivity.
Qed.

Lemma Video_get_key_in_range (v : Video.t) (t d : Q) :
  Video._duration v = Finite d ->
  (0 <= t)%Q -> (t <= d)%Q ->
  Video.get_key (Finite t) v
  = (float_to_int (float_mul (Finite t) (Video._fps v)), v).
Proof.
  intros Hd H0 Hle. rewrite Video_get_key_eq, Hd. simpl.
  apply Qltb_ge in H0, Hle. rewrite H0, Hle. reflexivity.
Qed.

(** C2. For a video with a finite duration [d] and a finite frame rate
    [fps >= 0], and for every float [time]: [get_key time] is [-1] when
    [time < 0] or [time > d], and otherwise it is [floor (time * fps)] on
    the float product (the product rounded to binary64), where, like
    [math.floor], it raises for an infinite or NaN product. So for
    [0 <= t <= d] with a finite product [p] it is the integer [k] with
    [k <= p < k + 1]: the product is cut, not rounded to the nearest
    integer. It does not decrease as [t] grows within [[0, d]]. *)
Theorem Video_get_key_floor (v : Video.t) (fps d : Q) (time : pyfloat)
    (t t' p p' : Q) :
  Video._fps v = Finite fps ->
  Video._duration v = Finite d ->
  (0 <= fps)%Q ->
  Video.get_key time v =
    (if float_lt time (Finite 0) || float_lt (Finite d) time then Ok (-1)
     else float_floor (float_mul time (Finite fps)), v) /\
  ((t < 0 \/ d < t)%Q -> Video.get_key (Finite t) v = (Ok (-1), v)) /\
  (forall s, Video.get_key (Infinity s) v = (Ok (-1), v)) /\
  ((0 <= t /\ t <= d)%Q ->
   float_mul (Finite t) (Finite fps) = Finite p ->
   Video.get_key (Finite t) v = (Ok (Qfloor p), v) /\
   (inject_Z (Qfloor p) <= p)%Q /\ (p < inject_Z (Qfloor p + 1))%Q) /\
  ((0 <= t /\ t <= t' /\ t' <= d)%Q ->
   float_mul (Finite t) (Finite fps) = Finite p ->
   float_mul (Finite t') (Finite fps) = Finite p' ->
   Video.get_key (Finite t) v = (Ok (Qfloor p), v) /\
   Video.get_key (Finite t') v = (Ok (Qfloor p'), v) /\
   Qfloor p <= Qfloor p').
Proof.
  intros Hfps Hd Hnn.
  assert (Hint : forall x, (0 <= x)%Q ->
            float_to_int (float_mul (Finite x) (Finite fps))
            = float_floor (float_mul (Finite x) (Finite fps))).
  { intros x H0. simpl.
    assert (Hx : (0 <= x * fps)%Q) by (apply Qmult_le_0_compat; assumption).
    destruct (round64 (x * fps)) as [q| |] eqn:Hq; [|reflexivity|reflexivity].
    destruct (round64_mono_nonneg _ _ q q Hx (Qle_refl _) Hq Hq) as [Hq0 _].
    simpl. rewrite int_floor_nonneg by exact Hq0. reflexivity. }
  assert (Hin : forall x q, (0 <= x)%Q -> (x <= d)%Q ->
            float_mul (Finite x) (Finite fps) = Finite q ->
            Video.get_key (Finite x) v = (Ok (Qfloor q), v)).
  { intros x q H0 Hle Hq.
    rewrite (Video_get_key_in_range v x d Hd H0 Hle), Hfps, (Hint x H0), Hq.
    reflexivity. }
  split; [|split; [|split; [|split]]].
  - rewrite Video_get_key_eq, Hd, Hfps.
    destruct (float_lt time (Finite 0) || float_lt (Finite d) time) eqn:Hout;
      [reflexivity|].
    apply orb_false_iff in Hout as [Hneg Hafter].
    destruct time as [x|s|]; [|destruct s; discriminate|reflexivity].
    simpl in Hneg. apply Qltb_ge in Hneg. rewrite (Hint x Hneg). reflexivity.
  - intros Hout. rewrite Video_get_key_eq, Hd. simpl.
    destruct Hout as [Hlt|Hlt]; apply Qltb_lt in Hlt; rewrite Hlt;
      [|rewrite orb_true_r]; reflexivity.
  - intros s. rewrite Video_get_key_eq, Hd. simpl. destruct s; reflexivity.
  - intros [H0 Hle] Hp.
    split; [exact (Hin t p H0 Hle Hp)|].
    split; [apply Qfloor_le|apply Qlt_floor].
  - intros (H0 & Htt & Hle) Hp Hp'.
    assert (H0' : (0 <= t')%Q) by (eapply Qle_trans; eassumption).
    assert (Hle' : (t <= d)%Q) by (eapply Qle_trans; eassumption).
    split; [exact (Hin t p H0 Hle' Hp)|].
    split; [exact (Hin t' p' H0' Hle Hp')|].
    apply Qfloor_resp_le. simpl in Hp, Hp'.
    assert (Hx : (0 <= t * fps)%Q) by (apply Qmult_le_0_compat; assumption).
    assert (Hxy : (t * fps <= t' * fps)%Q)
      by (apply Qmult_le_compat_r; assumption).
    exact (proj2 (round64_mono_nonneg _ _ p p' Hx Hxy Hp Hp')).
Qed.

Lemma Video_call_eq (v : Video.t) (time : pyfloat) :
  Video.__call__ time v =
  match float_to_int (float_mul time (Video._fps v)) with
  | Ok frame_index => Video_fetch frame_index v
  | Raise e => (Raise e, v)
  end.
Proof.
  unfold Video.__call__, bind, get, lift. simpl.
  destruct (float_to_int (float_mul time (Video._fps v))); reflexivity.
Qed.

(** C3, as amended. For every time [t], [__call__] computes its frame
    index by the expression of [get_key], [int (t * fps)] on the float
    product, checking neither [t] against [[0, duration]] nor the index
    against the frame count, and fetches the frame at that index from the
    reader; when the product is infinite or NaN, [int] raises and the
    reader is not asked. Whenever [get_key] does not answer [-1] for
    being out of range, its outcome is that of that same [int]. For a
    finite product [p] the index is the integer part of [p] toward zero:
    [floor p] when [p >= 0] and [ceiling p] otherwise. *)
Theorem Video_call_index (v : Video.t) (t : pyfloat) :
  Video.__call__ t v =
    match float_to_int (float_mul t (Video._fps v)) with
    | Ok frame_index => Video_fetch frame_index v
    | Raise e => (Raise e, v)
    end /\
  (forall frame_index,
     float_to_int (float_mul t (Video._fps v)) = Ok frame_index ->
     fst (Video.__call__ t v) =
       match fst (get_data (Video._reader v) frame_index) with
       | Ok frame =>
           match fromarray_rgba frame with
           | Ok pil_frame => Ok (Some pil_frame)
           | Raise e => Raise e
           end
       | Raise e => Raise e
       end) /\
  Video.get_key t v =
    (if float_lt t (Finite 0) || float_lt (Video._duration v) t then Ok (-1)
     else float_to_int (float_mul t (Video._fps v)), v) /\
  (forall p,
     float_mul t (Video._fps v) = Finite p ->
     float_to_int (float_mul t (Video._fps v)) =
       Ok (if Qle_bool 0 p then Qfloor p else Qceiling p)).
Proof.
  split; [apply Video_call_eq|].
  split.
  { intros frame_index Hidx. rewrite Video_call_eq, Hidx.
    unfold Video_fetch, bind, Video.reader_get_data, lift.
    destruct (get_data (Video._reader v) frame_index)
      as [[frame|e] reader]; simpl; [|reflexivity].
    destruct (fromarray_rgba frame); reflexivity. }
  split; [apply Video_get_key_eq|].
  intros p Hp. rewrite Hp. simpl. f_equal.
  destruct (Qle_bool 0 p) eqn:E.
  - apply int_floor_nonneg, Qle_bool_iff, E.
  - apply int_ceiling_nonpos, Qlt_le_weak, Qltb_lt.
    unfold Qltb. rewrite E. reflexivity.
Qed.

(** C9. [get_key] of each of the three layers returns without decoding
    and leaves the object as it found it: the cache of a still image, the
    cache slots of an image sequence, the reader of a video and the record
    of decoded files are the same after the call as before. *)
Theorem get_key_leaves_state (t : Q) (tv : pyfloat) (si : Store Image.t)
    (ss : Store ImageSequence.t) (v : Video.t) :
  snd (Image.get_key t si) = si /\
  snd (ImageSequence.get_key t ss) = ss /\
  snd (Video.get_key tv v) = v.
Proof.
  split; [reflexivity|]. split.
  - unfold ImageSequence.get_key, bind, get_self, ret. simpl.
    destruct (get_state _ _ <? 0); reflexivity.
  - rewrite Video_get_key_eq. reflexivity.
Qed.

End Keys.

Lemma Image_get_key_half_open_witness :
  let st : Store Image.t :=
    {| self := {| Image.image := None;
                  Image._img_file := Some "a.png"%string;
                  Image._duration := 2 |};
       opened := [] |} in
  (exists b, Image.get_key (1 # 2) st = (Ok b, st) /\
             (b = true <-> (0 <= 1 # 2 /\ 1 # 2 < 2)%Q)) /\
  Image.get_key 2 st = (Ok false, st) /\
  ((1 # 2 < 0)%Q -> Image.get_key (1 # 2) st = (Ok false, st)).
Proof.
  intros st.
  apply (Image_get_key_half_open (H := Reference.collaborators)
           Reference.fs_one (InPath "a.png"%string) 2 [] (self st) [] st (1 # 2));
    reflexivity.
Defined.

Lemma Video_get_key_floor_witness :
  Video.get_key float_0_3 clip10 = (Ok 3, clip10) /\
  Video.get_key (Finite (1 # 4)) clip10 = (Ok 2, clip10) /\
  Video.get_key (Finite (3 # 4)) clip10 = (Ok (-1), clip10) /\
  Video.get_key (Finite (-1 # 4)) clip10 = (Ok (-1), clip10) /\
  Video.get_key NaN clip10
    = (Raise (ValueError msg_float_nan_to_integer), clip10).
Proof.
  assert (Hfps : (0 <= 10)%Q) by (unfold Qle; simpl; lia).
  destruct (Video_get_key_floor clip10 10 (1 # 2) NaN
              (5404319552844595 # 18014398509481984) (1 # 2) 3 5
              eq_refl eq_refl Hfps) as (Hnan & _ & _ & Hin & _).
  destruct (Video_get_key_floor clip10 10 (1 # 2) NaN
              (1 # 4) (1 # 2) (5 # 2) 5
              eq_refl eq_refl Hfps) as (_ & _ & _ & _ & Hmono).
  destruct (Video_get_key_floor clip10 10 (1 # 2) NaN
              (3 # 4) (1 # 2) 0 0
              eq_refl eq_refl Hfps) as (_ & Hafter & _).
  destruct (Video_get_key_floor clip10 10 (1 # 2) NaN
              (-1 # 4) (1 # 2) 0 0
              eq_refl eq_refl Hfps) as (_ & Hbefore & _).
  split; [|split; [|split; [|split]]].
  - apply Hin; [split; unfold Qle; simpl; lia|].
    vm_compute. reflexivity.
  - apply Hmono; [repeat split; unfold Qle; simpl; lia| |];
      vm_compute; reflexivity.
  - apply Hafter. right. unfold Qlt; simpl; lia.
  - apply Hbefore. left. unfold Qlt; simpl; lia.
  - exact Hnan.
Defined.

(** C3 as first stated, with [floor] at every time, fails at a negative
    time: at [t = -1/2] and one frame per second the product is exactly
    [-1/2], the frame fetched is frame [0], and [floor (t * fps)] is
    [-1]. *)
Lemma Video_call_floor_counterexample :
  float_mul (Finite (-1 # 2)) (Video._fps clip) = Finite (-1 # 2) /\
  float_to_int (float_mul (Finite (-1 # 2)) (Video._fps clip)) = Ok 0 /\
  Qfloor (-1 # 2) = -1 /\
  Video.__call__ (Finite (-1 # 2)) clip <> Video_fetch (Qfloor (-1 # 2)) clip.
Proof.
  split; [vm_compute; reflexivity|]. split; [vm_compute; reflexivity|].
  split; [reflexivity|].
  vm_compute. discriminate.
Qed.

(** ** Grayscale expansion *)

Lemma split_last_snoc (sh : list nat) (c : nat) :
  split_last (sh ++ [c]) = Some (sh, c).
Proof.
  unfold split_last. rewrite reverse_app. simpl.
  rewrite reverse_involutive. reflexivity.
Qed.

Lemma scale_last_snoc (k : nat) (sh : list nat) (c : nat) :
  scale_last k (sh ++ [c]) = sh ++ [(c * k)%nat].
Proof.
  unfold scale_last. rewrite reverse_app. simpl.
  rewrite reverse_involutive. reflexivity.
Qed.

Lemma interleave_gray (l : list Z) :
  interleave (length l) 3 1 (flat_map (fun x => replicate 3 x) l)
             (map (fun _ => 255) l)
  = flat_map gray_to_rgba l.
Proof.
  induction l as [|v l IH]; [reflexivity|].
  change (interleave (length (v :: l)) 3 1
            (flat_map (fun x => replicate 3 x) (v :: l))
            (map (fun _ => 255) (v :: l)))
    with (gray_to_rgba v ++
          interleave (length l) 3 1 (flat_map (fun x => replicate 3 x) l)
                     (map (fun _ => 255) l)).
  rewrite IH. reflexivity.
Qed.

Lemma flat_map_gray_lookup (l : list Z) (k c : nat) (v : Z) :
  l !! k = Some v -> (c < 4)%nat ->
  flat_map gray_to_rgba l !! (k * 4 + c)%nat = gray_to_rgba v !! c.
Proof.
  revert k. induction l as [|x l IH]; intros k Hk Hc; [discriminate|].
  destruct k as [|k]; simpl in *.
  - injection Hk as ->.
    destruct c as [|[|[|[|c]]]]; try reflexivity; lia.
  - apply IH; assumption.
Qed.

Lemma flat_map_gray_length (l : list Z) :
  length (flat_map gray_to_rgba l) = (length l * 4)%nat.
Proof. induction l as [|x l IH]; simpl; [reflexivity|]. rewrite IH. lia. Qed.

Lemma flat_map_gray_range (l : list Z) :
  Forall (fun x => 0 <= x <= 255) l ->
  Forall (fun x => 0 <= x <= 255) (flat_map gray_to_rgba l).
Proof.
  induction 1 as [|x l Hx Hl IH]; simpl; [constructor|].
  repeat (constructor; [lia|]). exact IH.
Qed.

Lemma concatenate_gray (g : ndarray) :
  dtype_of g = uint8 ->
  length (data g) = numel (shape g) ->
  concatenate_last (repeat_last (expand_dims_last g) 3)
                   (full_like (expand_dims_last g) 255 uint8)
  = Some {| shape := shape g ++ [4%nat];
            dtype_of := uint8;
            data := flat_map gray_to_rgba (data g) |}.
Proof.
  intros Hdt Hlen. unfold concatenate_last. simpl.
  rewrite scale_last_snoc, !split_last_snoc.
  unfold shape_eqb. rewrite bool_decide_eq_true_2 by reflexivity.
  rewrite Hdt, <- Hlen, interleave_gray. reflexivity.
Qed.

Section Grayscale.
Context `{Collaborators}.

Lemma Image_read_image_cached fs (st : Store Image.t) (buf : ndarray) :
  Image.image (self st) = Some buf ->
  Image._read_image fs st = (Ok (Some buf), st).
Proof.
  intros Hc. unfold Image._read_image, bind, get_self, ret. simpl.
  rewrite Hc. simpl. rewrite Hc. reflexivity.
Qed.

(** C5. A still image built from a rank-2 [uint8] array [g] of shape
    [(h, w)] holds, and hands out through [__call__] and through the
    decode that [size] triggers, a [uint8] buffer of shape [(h, w, 4)]
    whose channels 0, 1 and 2 are [g] elementwise and whose channel 3 is
    255 everywhere; [size] is [(w, h)]. *)
Theorem Image_grayscale_rgba fs (g : ndarray) (h w : nat) (d : Q) log :
  shape g = [h; w] ->
  dtype_of g = uint8 ->
  well_formed g ->
  exists buf,
    Image.__init__ fs (InArray g) d log
      = (Ok {| Image.image := Some buf; Image._img_file := None;
               Image._duration := d |}, log) /\
    shape buf = [h; w; 4%nat] /\ dtype_of buf = uint8 /\ well_formed buf /\
    (forall i j, (i < h)%nat -> (j < w)%nat ->
       exists x, get2 g i j = Some x /\
                 get3 buf i j 0 = Some x /\ get3 buf i j 1 = Some x /\
                 get3 buf i j 2 = Some x /\ get3 buf i j 3 = Some 255) /\
    (forall fs' t (st : Store Image.t),
       Image.image (self st) = Some buf ->
       Image.__call__ fs' t st = (Ok (Some buf), st) /\
       Image._read_image fs' st = (Ok (Some buf), st) /\
       Image.size fs' st = (Ok (w, h), st)).
Proof.
  intros Hsh Hdt [Hlen Hrange].
  exists {| shape := shape g ++ [4%nat]; dtype_of := uint8;
            data := flat_map gray_to_rgba (data g) |}.
  split; [|split; [|split; [|split; [|split]]]].
  - unfold Image.__init__, ndim.
    rewrite concatenate_gray by assumption.
    rewrite Hsh, Hdt. reflexivity.
  - simpl. rewrite Hsh. reflexivity.
  - reflexivity.
  - split; simpl.
    + rewrite flat_map_gray_length, Hlen, Hsh. simpl. lia.
    + apply flat_map_gray_range. rewrite Hdt in Hrange. exact Hrange.
  - intros i j Hi Hj.
    assert (Hlt : (i * w + j < length (data g))%nat).
    { rewrite Hlen, Hsh. simpl. nia. }
    destruct (lookup_lt_is_Some_2 _ _ Hlt) as [x Hx].
    assert (Hb : ((i <? h) && (j <? w))%nat = true).
    { apply andb_true_iff. split; apply Nat.ltb_lt; assumption. }
    exists x. unfold get2, get3. simpl. rewrite Hsh. simpl. rewrite Hb. simpl.
    split; [exact Hx|].
    repeat split.
    + rewrite (flat_map_gray_lookup _ _ 0 x Hx) by lia. reflexivity.
    + rewrite (flat_map_gray_lookup _ _ 1 x Hx) by lia. reflexivity.
    + rewrite (flat_map_gray_lookup _ _ 2 x Hx) by lia. reflexivity.
    + rewrite (flat_map_gray_lookup _ _ 3 x Hx) by lia. reflexivity.
  - intros fs' t st Hc.
    assert (Hr := Image_read_image_cached fs' st _ Hc).
    split; [exact Hr|]. split; [exact Hr|].
    unfold Image.size, bind. rewrite Hr. simpl. rewrite Hsh. reflexivity.
Qed.

End Grayscale.

Lemma Image_grayscale_rgba_witness :
  exists buf,
    Image.__init__ Reference.fs_empty (InArray gray_1x2) 1 []
      = (Ok {| Image.image := Some buf; Image._img_file := None;
               Image._duration := 1 |}, []) /\
    shape buf = [1; 2; 4]%nat /\ data buf = [7; 7; 7; 255; 9; 9; 9; 255].
Proof.
  destruct (Image_grayscale_rgba (H := Reference.collaborators)
              Reference.fs_empty gray_1x2 1 2 1 [])
    as (buf & Hinit & Hsh & _); try reflexivity.
  - split; [reflexivity|]. repeat constructor; simpl; lia.
  - exists buf. split; [exact Hinit|]. split; [exact Hsh|].
    injection Hinit as <-. reflexivity.
Defined.

(** ** Python list access at a natural index *)

Lemma list_index_nat {A} (l : list A) (i : nat) :
  list_index l (Z.of_nat i) = if (i <? length l)%nat then Some i else None.
Proof.
  unfold list_index.
  destruct (Z.ltb_spec (Z.of_nat i) 0) as [Hneg|_]; [lia|].
  destruct (Z.leb_spec 0 (Z.of_nat i)) as [_|Hneg]; [|lia].
  rewrite Nat2Z.id. simpl.
  destruct (Z.ltb_spec (Z.of_nat i) (Z.of_nat (length l))) as [Hlt|Hge];
    destruct (Nat.ltb_spec i (length l)); try reflexivity; lia.
Qed.

Lemma list_get_nat {S A} (l : list A) (i : nat) (a : A) (s : S) :
  l !! i = Some a -> list_get l (Z.of_nat i) s = (Ok a, s).
Proof.
  intros Hi. unfold list_get. rewrite list_index_nat.
  apply lookup_lt_Some in Hi as Hlt.
  destruct (Nat.ltb_spec i (length l)); [|lia]. rewrite Hi. reflexivity.
Qed.

Lemma list_get_out_of_range {S A} (l : list A) (i : nat) (s : S) :
  (length l <= i)%nat -> list_get l (Z.of_nat i) s = (Raise IndexError, s).
Proof.
  intros Hge. unfold list_get. rewrite list_index_nat.
  destruct (Nat.ltb_spec i (length l)); [lia|]. reflexivity.
Qed.

Lemma list_set_nat {S A} (l : list A) (i : nat) (x : A) (s : S) :
  (i < length l)%nat -> list_set l (Z.of_nat i) x s = (Ok (<[i := x]> l), s).
Proof.
  intros Hlt. unfold list_set. rewrite list_index_nat.
  destruct (Nat.ltb_spec i (length l)); [|lia]. reflexivity.
Qed.

Lemma list_get_state {S A} (l : list A) (i : Z) (s : S) :
  snd (list_get l i s) = s.
Proof.
  unfold list_get. destruct (list_index l i) as [j|]; [|reflexivity].
  destruct (l !! j); reflexivity.
Qed.

(** ** One call of [ImageSequence.__call__], case by case *)

Section SequenceCall.
Context `{Collaborators}.

Lemma ImageSequence_call_none fs (time : Q) (st : Store ImageSequence.t) :
  get_state (ImageSequence.timeline (self st)) time < 0 ->
  ImageSequence.__call__ fs time st = (Ok None, st).
Proof.
  intros Hneg. unfold ImageSequence.__call__, bind, get_self. simpl.
  destruct (Z.ltb_spec (get_state (ImageSequence.timeline (self st)) time) 0);
    [reflexivity|lia].
Qed.

Lemma ImageSequence_call_cached fs (time : Q) (st : Store ImageSequence.t)
    (i : nat) (b : ndarray) :
  get_state (ImageSequence.timeline (self st)) time = Z.of_nat i ->
  ImageSequence.images (self st) !! i = Some (Some b) ->
  ImageSequence.__call__ fs time st = (Ok (Some b), st).
Proof.
  intros Hidx Hslot. unfold ImageSequence.__call__, bind, get_self. simpl.
  rewrite Hidx.
  destruct (Z.ltb_spec (Z.of_nat i) 0); [lia|].
  rewrite (list_get_nat _ _ _ _ Hslot). simpl.
  rewrite (list_get_nat _ _ _ _ Hslot). reflexivity.
Qed.

Lemma ImageSequence_call_out_of_range fs (time : Q) (st : Store ImageSequence.t)
    (i : nat) :
  get_state (ImageSequence.timeline (self st)) time = Z.of_nat i ->
  (length (ImageSequence.images (self st)) <= i)%nat ->
  ImageSequence.__call__ fs time st = (Raise IndexError, st).
Proof.
  intros Hidx Hge. unfold ImageSequence.__call__, bind, get_self. simpl.
  rewrite Hidx.
  destruct (Z.ltb_spec (Z.of_nat i) 0); [lia|].
  rewrite list_get_out_of_range by assumption. reflexivity.
Qed.

Lemma ImageSequence_call_decode fs (time : Q) (st : Store ImageSequence.t)
    (i : nat) (p : path) :
  get_state (ImageSequence.timeline (self st)) time = Z.of_nat i ->
  ImageSequence.images (self st) !! i = Some None ->
  ImageSequence.img_files (self st) !! i = Some (InPath p) ->
  ImageSequence.__call__ fs time st =
    match pil_open_rgba fs p with
    | Ok img =>
        (Ok (Some img),
         {| self := {| ImageSequence.timeline := ImageSequence.timeline (self st);
                       ImageSequence.img_files := ImageSequence.img_files (self st);
                       ImageSequence.images :=
                         <[i := Some img]> (ImageSequence.images (self st)) |};
            opened := opened st ++ [p] |})
    | Raise e => (Raise e, {| self := self st; opened := opened st ++ [p] |})
    end.
Proof.
  intros Hidx Hslot Hfile. unfold ImageSequence.__call__, bind, get_self. simpl.
  rewrite Hidx.
  destruct (Z.ltb_spec (Z.of_nat i) 0); [lia|].
  rewrite (list_get_nat _ _ _ _ Hslot). simpl.
  rewrite (list_get_nat _ _ _ _ Hfile). simpl.
  unfold PILImage_open_rgba. simpl.
  destruct (pil_open_rgba fs p) as [img|e]; [|reflexivity].
  apply lookup_lt_Some in Hslot as Hlt.
  rewrite list_set_nat by assumption. simpl.
  erewrite list_get_nat; [reflexivity|].
  simpl. apply list_lookup_insert_eq. assumption.
Qed.

End SequenceCall.

(** ** Construction of an image sequence *)

Section SequenceInit.
Context `{Collaborators}.

Lemma ImageSequence_init_loop_ok fs (rest : list img_input) :
  forall (i : nat) (pre : list (option ndarray)) log images log',
    length pre = i ->
    ImageSequence.__init__loop fs i rest
      (pre ++ replicate (length rest) None) log = (Ok images, log') ->
    images = pre ++ map slot_of rest /\ log' = log /\
    Forall (fun x => match x with
                     | InPath p => path_exists fs p = true
                     | InOther => False
                     | _ => True
                     end) rest.
Proof.
  induction rest as [|x rest IH]; intros i pre log images log' Hlen Hrun.
  - simpl in Hrun. injection Hrun as <- <-.
    split; [reflexivity|]. split; [reflexivity|]. constructor.
  - simpl in Hrun. unfold bind in Hrun.
    assert (Hstep : forall v : option ndarray,
              pre ++ v :: replicate (length rest) None
              = (pre ++ [v]) ++ replicate (length rest) None).
    { intros v. rewrite <- app_assoc. reflexivity. }
    assert (Hset : forall v : option ndarray,
              list_set (pre ++ None :: replicate (length rest) None)
                       (Z.of_nat i) v log
              = (Ok ((pre ++ [v]) ++ replicate (length rest) None), log)).
    { intros v. rewrite list_set_nat.
      - subst i. rewrite insert_app_r_alt by lia.
        rewrite Nat.sub_diag. simpl. rewrite <- app_assoc. reflexivity.
      - rewrite length_app. simpl. lia. }
    assert (Hlen' : forall v : option ndarray, length (pre ++ [v]) = S i).
    { intros v. rewrite length_app. simpl. lia. }
    destruct x as [p|im|a|]; simpl in Hrun.
    + unfold assert_ in Hrun.
      destruct (path_exists fs p) eqn:Hex; simpl in Hrun; [|discriminate].
      rewrite Hstep in Hrun.
      destruct (IH _ _ _ _ _ (Hlen' None) Hrun) as (-> & -> & Hall).
      rewrite <- app_assoc. repeat split. constructor; assumption.
    + rewrite Hset in Hrun.
      destruct (IH _ _ _ _ _ (Hlen' _) Hrun) as (-> & -> & Hall).
      rewrite <- app_assoc. repeat split. constructor; [exact I|assumption].
    + rewrite Hset in Hrun.
      destruct (IH _ _ _ _ _ (Hlen' _) Hrun) as (-> & -> & Hall).
      rewrite <- app_assoc. repeat split. constructor; [exact I|assumption].
    + discriminate.
Qed.

Lemma ImageSequence_init_ok fs starts ends files log s log' :
  ImageSequence.__init__ fs starts ends files log = (Ok s, log') ->
  ImageSequence.img_files s = files /\
  ImageSequence.images s = map slot_of files /\
  TimelineMixin_init starts ends = Ok (ImageSequence.timeline s) /\
  log' = log /\
  InOther ∉ files.
Proof.
  unfold ImageSequence.__init__, bind, lift, ret.
  destruct (TimelineMixin_init starts ends) as [base|e]; [|discriminate].
  destruct (ImageSequence.__init__loop fs 0 files
              (replicate (length files) None) log) as [[images|e] log1] eqn:Hloop;
    [|discriminate].
  intros [= <- <-].
  destruct (ImageSequence_init_loop_ok fs files 0 [] log images log1 eq_refl Hloop)
    as (-> & -> & Hall).
  split; [reflexivity|]. split; [reflexivity|]. split; [reflexivity|].
  split; [reflexivity|].
  intros Hin. rewrite Forall_forall in Hall. exact (Hall _ Hin).
Qed.

Lemma ImageSequence_init_inv fs starts ends files log s log' :
  ImageSequence.__init__ fs starts ends files log = (Ok s, log') ->
  ImageSequence_inv s.
Proof.
  intros Hinit. destruct (ImageSequence_init_ok _ _ _ _ _ _ _ Hinit)
    as (Hfiles & Himages & _ & _ & Hother).
  split.
  - rewrite Himages, Hfiles, length_map. reflexivity.
  - intros i Hi. rewrite Himages, list_lookup_fmap in Hi. rewrite Hfiles.
    destruct (files !! i) as [x|] eqn:E; [|discriminate].
    destruct x as [p|im|a|]; simpl in Hi; try discriminate.
    + eauto.
    + exfalso. apply Hother. eapply list_elem_of_lookup_2. exact E.
Qed.

End SequenceInit.

(** ** Runs of calls on an image sequence *)

Lemma elem_of_absent (images : list (option ndarray)) (i : nat) :
  i ∈ absent images <-> images !! i = Some None.
Proof.
  unfold absent. rewrite elem_of_list_to_set, list_elem_of_filter, elem_of_seq.
  unfold is_absent. split.
  - intros [Hi _]. destruct (images !! i) as [[b|]|]; simpl in Hi;
      try contradiction; reflexivity.
  - intros Hi. rewrite Hi. split; [exact I|].
    apply lookup_lt_Some in Hi. lia.
Qed.

Lemma absent_fill (images : list (option ndarray)) (i : nat) (b : ndarray) :
  absent (<[i := Some b]> images) = absent images ∖ {[i]}.
Proof.
  apply set_eq. intros j.
  rewrite elem_of_difference, !elem_of_absent, elem_of_singleton.
  destruct (decide (i = j)) as [<-|Hne].
  - split; [|tauto]. intros Hj. exfalso.
    destruct (decide (i < length images)%nat) as [Hlt|Hge].
    + rewrite list_lookup_insert_eq in Hj by assumption. discriminate.
    + rewrite list_insert_ge in Hj by lia.
      apply lookup_lt_Some in Hj. lia.
  - rewrite list_lookup_insert_ne by assumption. split; [|tauto].
    intros Hj. split; [assumption|congruence].
Qed.

Section SequenceRuns.
Context `{Collaborators}.

Lemma fills_refl (s : ImageSequence.t) : fills s s.
Proof. split; [reflexivity|]. split; [reflexivity|]. left. reflexivity. Qed.

Lemma ImageSequence_call_fills fs (time : Q) (st : Store ImageSequence.t) :
  fills (self st) (self (snd (ImageSequence.__call__ fs time st))).
Proof.
  unfold ImageSequence.__call__, bind, get_self. simpl.
  destruct (get_state _ _ <? 0); [apply fills_refl|].
  set (idx := get_state (ImageSequence.timeline (self st)) time).
  unfold list_get at 1.
  destruct (list_index (ImageSequence.images (self st)) idx) as [j|] eqn:Hj;
    [|apply fills_refl].
  destruct (ImageSequence.images (self st) !! j) as [slot|] eqn:Hslot;
    [|apply fills_refl].
  simpl. destruct slot as [b|]; simpl.
  - rewrite list_get_state. apply fills_refl.
  - pose proof (list_get_state (ImageSequence.img_files (self st)) idx st) as Hst.
    destruct (list_get (ImageSequence.img_files (self st)) idx st) as [[x|e] s1];
      simpl in Hst; subst s1; [|apply fills_refl].
    destruct x as [p|im|a|]; try apply fills_refl.
    unfold PILImage_open_rgba. simpl.
    destruct (pil_open_rgba fs p) as [img|e]; [|apply fills_refl].
    unfold list_set. rewrite Hj. simpl.
    match goal with
    | |- fills _ (self (snd (list_get ?l ?i ?s))) =>
        rewrite (list_get_state l i s)
    end.
    split; [reflexivity|]. split; [reflexivity|]. right. eauto.
Qed.

Lemma ImageSequence_step_fills (st : Store ImageSequence.t) op :
  fills (self st) (self (ImageSequence_step st op)).
Proof.
  destruct op as [time|fs time]; simpl.
  - unfold ImageSequence.get_key, bind, get_self. simpl.
    destruct (get_state _ _ <? 0); apply fills_refl.
  - apply ImageSequence_call_fills.
Qed.

Lemma fills_keeps_slot (s s' : ImageSequence.t) (i : nat) (b : ndarray) :
  fills s s' ->
  ImageSequence.images s !! i = Some (Some b) ->
  ImageSequence.images s' !! i = Some (Some b).
Proof.
  intros (_ & _ & [-> | (j & img & Hj & ->)]) Hi; [assumption|].
  rewrite list_lookup_insert_ne; [assumption|]. congruence.
Qed.

Lemma fills_length (s s' : ImageSequence.t) :
  fills s s' ->
  length (ImageSequence.images s') = length (ImageSequence.images s).
Proof.
  intros (_ & _ & [-> | (j & img & Hj & ->)]); [reflexivity|].
  apply length_insert.
Qed.

Lemma fills_inv (s s' : ImageSequence.t) :
  fills s s' -> ImageSequence_inv s -> ImageSequence_inv s'.
Proof.
  intros Hf [Hlen Hpath]. split.
  - rewrite (fills_length _ _ Hf). destruct Hf as (_ & -> & _). exact Hlen.
  - destruct Hf as (_ & -> & [-> | (j & img & Hj & ->)]); [exact Hpath|].
    intros i Hi. apply Hpath.
    destruct (decide (j = i)) as [->|Hne].
    + apply lookup_lt_Some in Hj.
      rewrite list_lookup_insert_eq in Hi by assumption. discriminate.
    + rewrite list_lookup_insert_ne in Hi by assumption. exact Hi.
Qed.

Lemma ImageSequence_run_app ops1 ops2 (st : Store ImageSequence.t) :
  ImageSequence_run (ops1 ++ ops2) st
  = ImageSequence_run ops2 (ImageSequence_run ops1 st).
Proof. unfold ImageSequence_run. apply foldl_app. Qed.

(** Along any run the base class and the assets stay as built, the cache
    keeps its length, and a filled slot keeps its buffer. *)
Lemma ImageSequence_run_frame ops (st : Store ImageSequence.t) :
  ImageSequence.timeline (self (ImageSequence_run ops st))
    = ImageSequence.timeline (self st) /\
  ImageSequence.img_files (self (ImageSequence_run ops st))
    = ImageSequence.img_files (self st) /\
  length (ImageSequence.images (self (ImageSequence_run ops st)))
    = length (ImageSequence.images (self st)) /\
  (forall i b, ImageSequence.images (self st) !! i = Some (Some b) ->
     ImageSequence.images (self (ImageSequence_run ops st)) !! i = Some (Some b)) /\
  (ImageSequence_inv (self st) ->
   ImageSequence_inv (self (ImageSequence_run ops st))).
Proof.
  revert st. induction ops as [|op ops IH]; intros st.
  - simpl. split; [reflexivity|]. split; [reflexivity|].
    split; [reflexivity|]. split; [tauto|tauto].
  - change (ImageSequence_run (op :: ops) st)
      with (ImageSequence_run ops (ImageSequence_step st op)).
    destruct (IH (ImageSequence_step st op)) as (Ht & Hf & Hl & Hs & Hi).
    pose proof (ImageSequence_step_fills st op) as Hfill.
    rewrite Ht, Hf, Hl. destruct Hfill as (Ht' & Hf' & Himg) eqn:E. clear E.
    split; [exact Ht'|]. split; [exact Hf'|].
    split; [apply fills_length; repeat split; assumption|].
    split.
    + intros i b Hb. apply Hs. eapply fills_keeps_slot; [|exact Hb].
      repeat split; assumption.
    + intros Hinv. apply Hi. eapply fills_inv; [|exact Hinv].
      repeat split; assumption.
Qed.

End SequenceRuns.

Lemma size_evaluated_new (i : nat) (E A : gset nat) :
  i ∈ A -> size (({[i]} ∪ E) ∩ A) = S (size (E ∩ (A ∖ {[i]}))).
Proof.
  intros Hi.
  replace (({[i]} ∪ E) ∩ A) with ({[i]} ∪ (E ∩ (A ∖ {[i]}))).
  - rewrite size_union, size_singleton; [reflexivity|].
    intros x. rewrite elem_of_singleton, elem_of_intersection,
      elem_of_difference, elem_of_singleton. tauto.
  - apply set_eq. intros x.
    rewrite elem_of_union, !elem_of_intersection, elem_of_difference,
      elem_of_union, elem_of_singleton.
    destruct (decide (x = i)) as [->|Hne]; tauto.
Qed.

Lemma evaluated_old (i : nat) (E A : gset nat) :
  i ∉ A -> ({[i]} ∪ E) ∩ A = E ∩ A.
Proof.
  intros Hi. apply set_eq. intros x.
  rewrite !elem_of_intersection, elem_of_union, elem_of_singleton.
  split; [|tauto]. intros [[->|Hx] HA]; [contradiction|tauto].
Qed.

Lemma size_evaluated_none (A : gset nat) : size ((∅ : gset nat) ∩ A) = 0%nat.
Proof.
  replace (∅ ∩ A) with (∅ : gset nat); [apply size_empty|].
  apply set_eq. intros x. rewrite elem_of_intersection, elem_of_empty. tauto.
Qed.

Section SequenceCount.
Context `{Collaborators}.

Lemma resolved_fills (s s' : ImageSequence.t) op :
  fills s s' -> resolved s' op = resolved s op.
Proof.
  intros Hf. destruct op as [time|fs time]; [reflexivity|]. simpl.
  rewrite (fills_length _ _ Hf). destruct Hf as (-> & _ & _). reflexivity.
Qed.

Lemma evaluated_fills (s s' : ImageSequence.t) ops :
  fills s s' -> evaluated s' ops = evaluated s ops.
Proof.
  intros Hf. unfold evaluated. f_equal.
  induction ops as [|op ops IH]; [reflexivity|].
  cbn [omap list_omap]. rewrite (resolved_fills _ _ _ Hf).
  destruct (resolved s op); [f_equal|]; exact IH.
Qed.

Lemma evaluated_cons (s : ImageSequence.t) op ops :
  evaluated s (op :: ops) =
  match resolved s op with
  | Some i => {[i]} ∪ evaluated s ops
  | None => evaluated s ops
  end.
Proof.
  unfold evaluated. simpl. destruct (resolved s op); reflexivity.
Qed.

(** One step, when the object is as [__init__] leaves it and the decode
    it may ask for succeeds. *)
Lemma ImageSequence_step_decodes (st : Store ImageSequence.t) op :
  ImageSequence_inv (self st) ->
  decode_succeeds st op ->
  match resolved (self st) op with
  | Some i =>
      if is_absent (ImageSequence.images (self st)) i then
        exists img p,
          ImageSequence_step st op =
          {| self := {| ImageSequence.timeline := ImageSequence.timeline (self st);
                        ImageSequence.img_files := ImageSequence.img_files (self st);
                        ImageSequence.images :=
                          <[i := Some img]> (ImageSequence.images (self st)) |};
             opened := opened st ++ [p] |}
      else ImageSequence_step st op = st
  | None => ImageSequence_step st op = st
  end.
Proof.
  intros [Hlen Hpath] Hok.
  destruct op as [time|fs time]; simpl.
  - unfold ImageSequence.get_key, bind, get_self. simpl.
    destruct (get_state _ _ <? 0); reflexivity.
  - simpl in Hok.
    set (idx := get_state (ImageSequence.timeline (self st)) time).
    destruct (Z.leb_spec 0 idx) as [Hnn|Hneg]; simpl.
    2: { rewrite ImageSequence_call_none by (fold idx; lia). reflexivity. }
    assert (Hidx : get_state (ImageSequence.timeline (self st)) time
                   = Z.of_nat (Z.to_nat idx)) by (fold idx; lia).
    destruct (Z.ltb_spec idx (Z.of_nat (length (ImageSequence.images (self st)))))
      as [Hlt|Hge].
    2: { rewrite (ImageSequence_call_out_of_range _ _ _ _ Hidx) by lia.
         reflexivity. }
    destruct (lookup_lt_is_Some_2 (ImageSequence.images (self st)) (Z.to_nat idx))
      as [slot Hslot]; [lia|].
    unfold is_absent. rewrite Hslot. destruct slot as [b|].
    + rewrite (ImageSequence_call_cached _ _ _ _ _ Hidx Hslot). reflexivity.
    + destruct (Hpath _ Hslot) as [p Hp].
      rewrite (ImageSequence_call_decode _ _ _ _ _ Hidx Hslot Hp) in Hok |- *.
      destruct (pil_open_rgba fs p) as [img|e].
      * exists img, p. reflexivity.
      * exfalso. simpl in Hok.
        assert (Hgrow : opened st ++ [p] <> opened st).
        { intros Heq. apply (f_equal length) in Heq.
          rewrite length_app in Heq. simpl in Heq. lia. }
        specialize (Hok Hgrow). discriminate.
Qed.

(** The number of files decoded along a run is the number of distinct
    slots that were evaluated and were empty at its start. *)
Lemma ImageSequence_run_decodes ops :
  forall st : Store ImageSequence.t,
    ImageSequence_inv (self st) ->
    decodes_succeed st ops ->
    length (opened (ImageSequence_run ops st)) =
    (length (opened st)
     + size (evaluated (self st) ops ∩ absent (ImageSequence.images (self st))))%nat.
Proof.
  induction ops as [|op ops IH]; intros st Hinv Hok.
  - simpl. unfold evaluated. simpl. rewrite size_evaluated_none. lia.
  - change (ImageSequence_run (op :: ops) st)
      with (ImageSequence_run ops (ImageSequence_step st op)).
    destruct Hok as [Hop Hops].
    pose proof (ImageSequence_step_fills st op) as Hfill.
    pose proof (ImageSequence_step_decodes st op Hinv Hop) as Hstep.
    rewrite IH.
    2: { eapply fills_inv; eassumption. }
    2: { exact Hops. }
    rewrite (evaluated_fills _ _ _ Hfill), evaluated_cons.
    destruct (resolved (self st) op) as [i|].
    + destruct (is_absent (ImageSequence.images (self st)) i) eqn:Habs.
      * destruct Hstep as (img & p & ->). simpl.
        rewrite absent_fill, length_app. simpl.
        assert (Hi : i ∈ absent (ImageSequence.images (self st))).
        { apply elem_of_absent. unfold is_absent in Habs.
          destruct (ImageSequence.images (self st) !! i) as [[b|]|];
            try discriminate; reflexivity. }
        rewrite (size_evaluated_new _ _ _ Hi). lia.
      * rewrite Hstep.
        assert (Hi : i ∉ absent (ImageSequence.images (self st))).
        { rewrite elem_of_absent. unfold is_absent in Habs.
          destruct (ImageSequence.images (self st) !! i) as [[b|]|];
            congruence. }
        rewrite (evaluated_old _ _ _ Hi). reflexivity.
    + rewrite Hstep. reflexivity.
Qed.

End SequenceCount.

(** ** Raw arrays in an image sequence *)

Section SequenceRawArray.
Context `{Collaborators}.

(** An array given as an asset is stored and handed out as it came,
    whatever its rank, channel count or dtype. *)
Lemma ImageSequence_call_raw_array fs0 fs starts ends files log s log'
    (i : nat) (a : ndarray) (time : Q) opened :
  ImageSequence.__init__ fs0 starts ends files log = (Ok s, log') ->
  files !! i = Some (InArray a) ->
  get_state (ImageSequence.timeline s) time = Z.of_nat i ->
  ImageSequence.__call__ fs time {| self := s; opened := opened |}
  = (Ok (Some a), {| self := s; opened := opened |}).
Proof.
  intros Hinit Hfile Hidx.
  destruct (ImageSequence_init_ok _ _ _ _ _ _ _ Hinit) as (_ & Himg & _).
  apply (ImageSequence_call_cached fs time _ i a); simpl; [assumption|].
  rewrite Himg, list_lookup_fmap, Hfile. reflexivity.
Qed.

End SequenceRawArray.

(** C1, where the code departs from it. An image sequence built over the
    grayscale array [gray_1x2] (shape [(1, 2)]) answers [__call__] at time
    [1/2] with that very array: a buffer of rank 2, not of shape
    [(height, width, 4)]. *)
Theorem ImageSequence_returns_rank2 :
  ImageSequence.__init__ Reference.fs_empty [0%Q] [1%Q] [InArray gray_1x2] []
    = (Ok one_array_seq, []) /\
  ImageSequence.__call__ Reference.fs_empty (1 # 2)
      {| self := one_array_seq; opened := [] |}
    = (Ok (Some gray_1x2), {| self := one_array_seq; opened := [] |}) /\
  ndim gray_1x2 = 2%nat /\
  shape gray_1x2 = [1; 2]%nat.
Proof.
  split; [reflexivity|].
  split; [|split; reflexivity].
  apply (ImageSequence_call_raw_array (H := Reference.collaborators)
           Reference.fs_empty Reference.fs_empty [0%Q] [1%Q]
           [InArray gray_1x2] [] one_array_seq [] 0 gray_1x2 (1 # 2) []);
    reflexivity.
Qed.

(** ** Each file of an image sequence is decoded once *)

Section SequenceOnce.
Context `{Collaborators}.

(** C6, as amended. For an image sequence as [__init__] builds it and
    any run of [get_key] and [__call__] on it: nothing is decoded at
    construction; the base class and the assets are never changed and the
    cache has as many slots as there are assets throughout; a slot, once
    it holds a buffer, holds that buffer ever after, and every later
    [__call__] resolving to it returns that buffer without decoding and
    without changing the object; and, when the decodes asked for succeed,
    the number of files decoded is the number of distinct slots that were
    evaluated and that construction had left empty (the slots of path
    assets). *)
Theorem ImageSequence_decode_once fs0 starts ends files log s log'
    (ops1 ops2 : list ImageSequence_op) :
  ImageSequence.__init__ fs0 starts ends files log = (Ok s, log') ->
  let st1 := ImageSequence_run ops1 {| self := s; opened := log' |} in
  let st2 := ImageSequence_run ops2 st1 in
  log' = log /\
  ImageSequence.img_files (self st2) = files /\
  ImageSequence.timeline (self st2) = ImageSequence.timeline s /\
  length (ImageSequence.images (self st2)) = length files /\
  (forall i b,
     ImageSequence.images (self st1) !! i = Some (Some b) ->
     ImageSequence.images (self st2) !! i = Some (Some b) /\
     forall fs time,
       get_state (ImageSequence.timeline s) time = Z.of_nat i ->
       ImageSequence.__call__ fs time st2 = (Ok (Some b), st2)) /\
  (decodes_succeed {| self := s; opened := log' |} (ops1 ++ ops2) ->
   length (opened st2) =
   (length log
    + size (evaluated s (ops1 ++ ops2) ∩ absent (ImageSequence.images s)))%nat).
Proof.
  intros Hinit st1 st2.
  destruct (ImageSequence_init_ok _ _ _ _ _ _ _ Hinit)
    as (Hfiles & Himages & _ & Hlog & _).
  pose proof (ImageSequence_init_inv _ _ _ _ _ _ _ Hinit) as Hinv.
  assert (Hst2 : st2 = ImageSequence_run (ops1 ++ ops2) {| self := s; opened := log' |}).
  { unfold st2, st1. symmetry. apply ImageSequence_run_app. }
  destruct (ImageSequence_run_frame (ops1 ++ ops2) {| self := s; opened := log' |})
    as (Ht & Hf & Hl & _ & _).
  destruct (ImageSequence_run_frame ops2 st1) as (_ & _ & _ & Hkeep & _).
  rewrite <- Hst2 in Ht, Hf, Hl. simpl in Ht, Hf, Hl.
  split; [exact Hlog|]. split; [congruence|]. split; [exact Ht|].
  split; [rewrite Hl, Himages, length_map; reflexivity|].
  split.
  - intros i b Hb. specialize (Hkeep i b Hb). split; [exact Hkeep|].
    intros fs time Hidx.
    apply (ImageSequence_call_cached fs time st2 i b); [|exact Hkeep].
    rewrite Ht. exact Hidx.
  - intros Hok. rewrite Hst2.
    rewrite (ImageSequence_run_decodes (ops1 ++ ops2)
               {| self := s; opened := log' |} Hinv Hok).
    simpl. rewrite Hlog. reflexivity.
Qed.

End SequenceOnce.

Lemma two_assets_init :
  ImageSequence.__init__ Reference.fs_one [0; 1]%Q [1; 2]%Q two_assets []
  = (Ok two_assets_seq, []).
Proof. reflexivity. Qed.

Lemma ImageSequence_decode_once_witness :
  let ops := [Seq_call Reference.fs_one 0; Seq_get_key 0;
              Seq_call Reference.fs_empty (1 # 2); Seq_call Reference.fs_one 1;
              Seq_call Reference.fs_empty 5] in
  ImageSequence.__init__ Reference.fs_one [0; 1]%Q [1; 2]%Q two_assets []
    = (Ok two_assets_seq, []) /\
  decodes_succeed {| self := two_assets_seq; opened := [] |} ops /\
  length (opened (ImageSequence_run ops {| self := two_assets_seq; opened := [] |}))
  = (0 + size (evaluated two_assets_seq ops
               ∩ absent (ImageSequence.images two_assets_seq)))%nat.
Proof.
  intros ops.
  assert (Hok : decodes_succeed {| self := two_assets_seq; opened := [] |} ops).
  { unfold ops. simpl.
    repeat (split; [first [exact I | intros _; reflexivity]|]). exact I. }
  split; [exact two_assets_init|]. split; [exact Hok|].
  destruct (ImageSequence_decode_once (H := Reference.collaborators)
              Reference.fs_one [0; 1]%Q [1; 2]%Q two_assets [] two_assets_seq []
              ops [] two_assets_init) as (_ & _ & _ & _ & _ & Hcount).
  exact (Hcount
           (eq_ind_r (decodes_succeed {| self := two_assets_seq; opened := [] |})
                     Hok (app_nil_r ops))).
Defined.

(** C6 as first stated counts every distinct index evaluated. A sequence
    of one raw array, evaluated once inside its interval, decodes no file
    although one index was evaluated. *)
Lemma ImageSequence_decode_count_counterexample :
  let ops := [Seq_call Reference.fs_empty (1 # 2)] in
  let st := ImageSequence_run ops {| self := one_array_seq; opened := [] |} in
  ImageSequence.__init__ Reference.fs_empty [0%Q] [1%Q] [InArray gray_1x2] []
    = (Ok one_array_seq, []) /\
  length (opened st) = 0%nat /\
  size (evaluated one_array_seq ops) = 1%nat /\
  length (opened st) <> size (evaluated one_array_seq ops).
Proof.
  intros ops st.
  assert (Hsize : size (evaluated one_array_seq ops) = 1%nat).
  { unfold evaluated.
    change (omap (resolved one_array_seq) ops) with [0%nat].
    rewrite list_to_set_cons, list_to_set_nil, union_empty_r_L.
    apply size_singleton. }
  split; [reflexivity|]. split; [reflexivity|]. split; [exact Hsize|].
  rewrite Hsize. discriminate.
Qed.

(** ** The cache of a still image *)

Section StillCache.
Context `{Collaborators}.

Lemma Image_read_image_decode fs (st : Store Image.t) (p : path) :
  Image.image (self st) = None ->
  Image._img_file (self st) = Some p ->
  Image._read_image fs st =
    match pil_open_rgba fs p with
    | Ok img =>
        (Ok (Some img),
         {| self := {| Image.image := Some img;
                       Image._img_file := Some p;
                       Image._duration := Image._duration (self st) |};
            opened := opened st ++ [p] |})
    | Raise e => (Raise e, {| self := self st; opened := opened st ++ [p] |})
    end.
Proof.
  intros Hc Hp. unfold Image._read_image, bind, get_self. simpl.
  rewrite Hc, Hp. unfold PILImage_open_rgba. simpl.
  destruct (pil_open_rgba fs p); reflexivity.
Qed.

Lemma Image_read_image_no_source fs (st : Store Image.t) :
  Image.image (self st) = None ->
  Image._img_file (self st) = None ->
  Image._read_image fs st = (Raise (AssertionError msg_none), st).
Proof.
  intros Hc Hp. unfold Image._read_image, bind, get_self. simpl.
  rewrite Hc, Hp. reflexivity.
Qed.

Lemma Image_step_cached (st : Store Image.t) (b : ndarray) op :
  Image.image (self st) = Some b -> Image_step st op = st.
Proof.
  intros Hc. destruct op as [time|fs time|fs]; simpl.
  - reflexivity.
  - unfold Image.__call__. rewrite (Image_read_image_cached fs st b Hc). reflexivity.
  - unfold Image.size, bind. rewrite (Image_read_image_cached fs st b Hc).
    destruct (list_get (take 2 (shape b)) 1 st) as [[w|e] s1] eqn:Hw;
      pose proof (list_get_state (take 2 (shape b)) 1 st) as Hs1;
      rewrite Hw in Hs1; simpl in Hs1; subst s1; [|reflexivity].
    destruct (list_get (take 2 (shape b)) 0 st) as [[h|e] s1] eqn:Hh;
      pose proof (list_get_state (take 2 (shape b)) 0 st) as Hs1;
      rewrite Hh in Hs1; simpl in Hs1; subst s1; reflexivity.
Qed.

Lemma Image_run_cached ops (st : Store Image.t) (b : ndarray) :
  Image.image (self st) = Some b -> Image_run ops st = st.
Proof.
  intros Hc. induction ops as [|op ops IH]; [reflexivity|].
  unfold Image_run. simpl. rewrite (Image_step_cached st b op Hc). exact IH.
Qed.

(** What a returning [__call__] leaves behind. *)
Lemma Image_call_ok fs (time : Q) (st st1 : Store Image.t) r :
  Image.__call__ fs time st = (Ok r, st1) ->
  exists b, r = Some b /\ Image.image (self st1) = Some b /\
    ((Image.image (self st) = Some b /\ st1 = st) \/
     (Image.image (self st) = None /\
      exists p, Image._img_file (self st) = Some p /\
                opened st1 = opened st ++ [p])).
Proof.
  unfold Image.__call__. intros Hcall.
  destruct (Image.image (self st)) as [b|] eqn:Hc.
  - rewrite (Image_read_image_cached fs st b Hc) in Hcall.
    injection Hcall as <- <-. exists b. auto.
  - destruct (Image._img_file (self st)) as [p|] eqn:Hp.
    + rewrite (Image_read_image_decode fs st p Hc Hp) in Hcall.
      destruct (pil_open_rgba fs p) as [img|e]; [|discriminate].
      injection Hcall as <- <-. exists img. simpl.
      split; [reflexivity|]. split; [reflexivity|]. right. eauto.
    + rewrite (Image_read_image_no_source fs st Hc Hp) in Hcall. discriminate.
Qed.

(** C7. What [__call__] of a still image returns does not depend on its
    time argument. If a call at [t1] returns, it returns a buffer, the
    same call at any other time would have returned it too, and every
    later call, at any time, after any other calls and whatever has become
    of the files, returns that same buffer as a pure read. The first call
    decodes at most one file. Once the cache holds a buffer, however it
    came to (at construction, by [__call__] or by [size]), no call of
    [get_key], [__call__] or [size] changes it or decodes anything: the
    cache is filled at most once. *)
Theorem Image_call_time_invariant fs1 fs2 (t1 t2 : Q) (st st1 : Store Image.t)
    (r : option ndarray) (ops0 ops : list Image_op) :
  Image.__call__ fs1 t1 st = (Ok r, st1) ->
  (exists b, r = Some b /\ Image.image (self st1) = Some b) /\
  Image.__call__ fs1 t2 st = (Ok r, st1) /\
  Image.__call__ fs2 t2 (Image_run ops st1) = (Ok r, st1) /\
  (length (opened st1) <= length (opened st) + 1)%nat /\
  (is_Some (Image.image (self (Image_run ops0 st))) ->
   Image_run ops (Image_run ops0 st) = Image_run ops0 st).
Proof.
  intros Hcall.
  destruct (Image_call_ok _ _ _ _ _ Hcall) as (b & -> & Hc1 & Hfrom).
  split; [eauto|]. split; [exact Hcall|].
  split.
  { rewrite (Image_run_cached ops st1 b Hc1).
    apply (Image_read_image_cached fs2 st1 b Hc1). }
  split.
  { destruct Hfrom as [[_ ->]|(_ & p & _ & ->)]; [lia|].
    rewrite length_app. simpl. lia. }
  intros [b0 Hb0]. apply (Image_run_cached ops _ b0 Hb0).
Qed.

(** C10. When the decode that a call asks for fails, the call raises the
    decoder's exception and the object is as before: the cache of the
    still image, respectively the slot of the sequence, is still empty and
    nothing else was stored. The next call asks for the same decode again,
    and its outcome is that of the decoder on the files as they then
    are. *)
Theorem lazy_decode_failure fs fs' (si : Store Image.t)
    (ss : Store ImageSequence.t) (p q : path) (t t' : Q) (i : nat) (e e' : exn) :
  Image.image (self si) = None ->
  Image._img_file (self si) = Some p ->
  pil_open_rgba fs p = Raise e ->
  get_state (ImageSequence.timeline (self ss)) t = Z.of_nat i ->
  ImageSequence.images (self ss) !! i = Some None ->
  ImageSequence.img_files (self ss) !! i = Some (InPath q) ->
  pil_open_rgba fs q = Raise e' ->
  let si' := {| self := self si; opened := opened si ++ [p] |} in
  let ss' := {| self := self ss; opened := opened ss ++ [q] |} in
  Image.__call__ fs t si = (Raise e, si') /\
  Image.__call__ fs' t' si' =
    match pil_open_rgba fs' p with
    | Ok img =>
        (Ok (Some img),
         {| self := {| Image.image := Some img;
                       Image._img_file := Some p;
                       Image._duration := Image._duration (self si) |};
            opened := (opened si ++ [p]) ++ [p] |})
    | Raise e2 =>
        (Raise e2, {| self := self si; opened := (opened si ++ [p]) ++ [p] |})
    end /\
  ImageSequence.__call__ fs t ss = (Raise e', ss') /\
  ImageSequence.__call__ fs' t ss' =
    match pil_open_rgba fs' q with
    | Ok img =>
        (Ok (Some img),
         {| self := {| ImageSequence.timeline := ImageSequence.timeline (self ss);
                       ImageSequence.img_files := ImageSequence.img_files (self ss);
                       ImageSequence.images :=
                         <[i := Some img]> (ImageSequence.images (self ss)) |};
            opened := (opened ss ++ [q]) ++ [q] |})
    | Raise e2 =>
        (Raise e2, {| self := self ss; opened := (opened ss ++ [q]) ++ [q] |})
    end.
Proof.
  intros Hc Hp He Hidx Hslot Hfile He' si' ss'.
  split; [|split; [|split]].
  - unfold Image.__call__. rewrite (Image_read_image_decode fs si p Hc Hp), He.
    reflexivity.
  - unfold Image.__call__.
    rewrite (Image_read_image_decode fs' si' p Hc Hp). reflexivity.
  - rewrite (ImageSequence_call_decode fs t ss i q Hidx Hslot Hfile), He'.
    reflexivity.
  - rewrite (ImageSequence_call_decode fs' t ss' i q Hidx Hslot Hfile).
    reflexivity.
Qed.

End StillCache.

Lemma Image_call_time_invariant_witness :
  let st1 : Store Image.t :=
    {| self := {| Image.image := Some (Reference.pixel 255 0 0 255);
                  Image._img_file := Some "a.png"%string;
                  Image._duration := 2 |};
       opened := ["a.png"%string] |} in
  Image.__call__ Reference.fs_one 0 still_pending
    = (Ok (Some (Reference.pixel 255 0 0 255)), st1) /\
  Image.__call__ Reference.fs_empty 7
      (Image_run [Img_size Reference.fs_empty; Img_get_key 3;
                  Img_call Reference.fs_empty 1] st1)
    = (Ok (Some (Reference.pixel 255 0 0 255)), st1) /\
  Image_run [Img_size Reference.fs_empty; Img_get_key 3;
             Img_call Reference.fs_empty 1]
            (Image_run [Img_size Reference.fs_one] still_pending)
  = Image_run [Img_size Reference.fs_one] still_pending.
Proof.
  intros st1.
  assert (Hcall : Image.__call__ Reference.fs_one 0 still_pending
                  = (Ok (Some (Reference.pixel 255 0 0 255)), st1))
    by reflexivity.
  destruct (Image_call_time_invariant (H := Reference.collaborators)
              Reference.fs_one Reference.fs_empty 0 7 still_pending st1 _
              [Img_size Reference.fs_one]
              [Img_size Reference.fs_empty; Img_get_key 3;
               Img_call Reference.fs_empty 1] Hcall)
    as (_ & _ & Hlater & _ & Hfilled).
  split; [exact Hcall|]. split; [exact Hlater|].
  apply (Hfilled (ex_intro _ _ eq_refl)).
Defined.

Lemma lazy_decode_failure_witness :
  let gone := ExternalError "FileNotFoundError" in
  let ss : Store ImageSequence.t := {| self := two_assets_seq; opened := [] |} in
  Image.__call__ Reference.fs_empty 0 still_pending
    = (Raise gone, {| self := self still_pending; opened := ["a.png"%string] |}) /\
  ImageSequence.__call__ Reference.fs_empty 0 ss
    = (Raise gone, {| self := two_assets_seq; opened := ["a.png"%string] |}).
Proof.
  intros gone ss.
  destruct (lazy_decode_failure (H := Reference.collaborators)
              Reference.fs_empty Reference.fs_one still_pending ss
              "a.png"%string "a.png"%string 0 1 0 gone gone)
    as (Hstill & _ & Hseq & _); try reflexivity.
  split; [exact Hstill|exact Hseq].
Defined.

(** ** Construction of a still image *)

Lemma concatenate_gray_defined (a : ndarray) :
  is_Some (concatenate_last (repeat_last (expand_dims_last a) 3)
                            (full_like (expand_dims_last a) 255 uint8)).
Proof.
  unfold concatenate_last. simpl.
  rewrite scale_last_snoc, !split_last_snoc.
  unfold shape_eqb. rewrite bool_decide_eq_true_2 by reflexivity. eauto.
Qed.

Section StillInit.
Context `{Collaborators}.

(** C8, as amended. Construction of a still image decodes nothing and
    fails exactly in these cases: a path that does not exist
    ([AssertionError]); a rank-2 array whose dtype is not [uint8]
    ([AssertionError]); a rank-3 array whose third dimension is not 4
    ([AssertionError]); an array of any other rank ([ValueError]); a value
    of any other type ([ValueError]). For an existing path it succeeds
    with an empty cache, leaving the decode to the first use. *)
Theorem Image_init_outcome fs (img_file : img_input) (d : Q) log :
  snd (Image.__init__ fs img_file d log) = log /\
  match img_file with
  | InPath p =>
      fst (Image.__init__ fs img_file d log) =
      if path_exists fs p
      then Ok {| Image.image := None; Image._img_file := Some p;
                 Image._duration := d |}
      else Raise (AssertionError (msg_does_not_exist p))
  | InPIL im =>
      fst (Image.__init__ fs img_file d log) =
      Ok {| Image.image := Some (pil_convert_rgba im); Image._img_file := None;
            Image._duration := d |}
  | InArray a =>
      match ndim a with
      | 2%nat =>
          if dtype_eqb (dtype_of a) uint8
          then exists buf,
                 fst (Image.__init__ fs img_file d log) =
                 Ok {| Image.image := Some buf; Image._img_file := None;
                       Image._duration := d |}
          else fst (Image.__init__ fs img_file d log)
               = Raise (AssertionError msg_none)
      | 3%nat =>
          fst (Image.__init__ fs img_file d log) =
          if bool_decide (shape a !! 2%nat = Some 4%nat)
          then Ok {| Image.image := Some a; Image._img_file := None;
                     Image._duration := d |}
          else Raise (AssertionError msg_must_have_4_channels)
      | _ =>
          fst (Image.__init__ fs img_file d log)
          = Raise (ValueError (msg_invalid_shape (shape a)))
      end
  | InOther =>
      fst (Image.__init__ fs img_file d log) = Raise (ValueError msg_invalid_type)
  end.
Proof.
  destruct img_file as [p|im|a|]; simpl.
  - unfold bind, assert_. destruct (path_exists fs p); split; reflexivity.
  - split; reflexivity.
  - destruct (ndim a) as [|[|[|[|n]]]] eqn:Hn; simpl; try (split; reflexivity).
    + destruct (dtype_eqb (dtype_of a) uint8); simpl; [|split; reflexivity].
      destruct (concatenate_gray_defined a) as [buf Hbuf].
      unfold bind. simpl. rewrite Hbuf. simpl. split; [reflexivity|].
      exists buf. reflexivity.
    + unfold bind, assert_.
      destruct (bool_decide (shape a !! 2%nat = Some 4%nat)); split; reflexivity.
  - split; reflexivity.
Qed.

End StillInit.

(** C8 as first stated lists the rejected inputs without the rank-2 array
    of another dtype. Such an array is rejected, although it is no path,
    has rank 2, and is of a supported type. *)
Lemma Image_init_dtype_counterexample :
  Image.__init__ Reference.fs_empty (InArray gray_int64) 1 []
    = (Raise (AssertionError msg_none), []) /\
  ndim gray_int64 = 2%nat /\
  ~ (ndim gray_int64 = 3%nat /\ shape gray_int64 !! 2%nat <> Some 4%nat) /\
  ~ (ndim gray_int64 <> 2%nat /\ ndim gray_int64 <> 3%nat).
Proof.
  split; [reflexivity|]. split; [reflexivity|].
  split; intros [Hn _]; [discriminate Hn|apply Hn; reflexivity].
Qed.

(** * Further properties of the layers *)

(** ** Outcome of [ImageSequence.__init__] *)

Section SequenceInitOutcome.
Context `{Collaborators}.

Lemma ImageSequence_init_loop_app fs (l1 l2 : list img_input) :
  forall (i : nat) (pre : list (option ndarray)) log,
    length pre = i ->
    forallb (asset_ok fs) l1 = true ->
    ImageSequence.__init__loop fs i (l1 ++ l2)
      (pre ++ replicate (length (l1 ++ l2)) None) log
    = ImageSequence.__init__loop fs (i + length l1) l2
        ((pre ++ map slot_of l1) ++ replicate (length l2) None) log.
Proof.
  induction l1 as [|x l1 IH]; intros i pre log Hlen Hok.
  - simpl. rewrite Nat.add_0_r, app_nil_r. reflexivity.
  - simpl in Hok. apply andb_true_iff in Hok as [Hx Hok].
    assert (Hset : forall v : option ndarray,
              list_set (pre ++ None :: replicate (length (l1 ++ l2)) None)
                       (Z.of_nat i) v log
              = (Ok ((pre ++ [v]) ++ replicate (length (l1 ++ l2)) None), log)).
    { intros v. rewrite list_set_nat.
      - subst i. rewrite insert_app_r_alt by lia.
        rewrite Nat.sub_diag. simpl. rewrite <- app_assoc. reflexivity.
      - rewrite length_app. simpl. lia. }
    assert (Hlen' : forall v : option ndarray, length (pre ++ [v]) = S i).
    { intros v. rewrite length_app. simpl. lia. }
    assert (Hgoal : forall v : option ndarray,
              slot_of x = v ->
              ImageSequence.__init__loop fs (S i) (l1 ++ l2)
                ((pre ++ [v]) ++ replicate (length (l1 ++ l2)) None) log
              = ImageSequence.__init__loop fs (i + length (x :: l1)) l2
                  ((pre ++ map slot_of (x :: l1)) ++ replicate (length l2) None) log).
    { intros v <-. rewrite (IH (S i) _ log (Hlen' _) Hok). simpl.
      rewrite <- (app_assoc pre [slot_of x]). simpl.
      rewrite Nat.add_succ_r. reflexivity. }
    change (ImageSequence.__init__loop fs i ((x :: l1) ++ l2)
              (pre ++ replicate (length ((x :: l1) ++ l2)) None) log)
      with (bind
              (match x with
               | InPath p =>
                   assert_ (path_exists fs p) (msg_does_not_exist p) ;;;
                   ret (pre ++ None :: replicate (length (l1 ++ l2)) None)
               | InPIL im =>
                   list_set (pre ++ None :: replicate (length (l1 ++ l2)) None)
                            (Z.of_nat i) (Some (pil_convert_rgba im))
               | InArray a =>
                   list_set (pre ++ None :: replicate (length (l1 ++ l2)) None)
                            (Z.of_nat i) (Some a)
               | InOther => raise (ValueError msg_invalid_type)
               end)
              (fun images => ImageSequence.__init__loop fs (S i) (l1 ++ l2) images)
              log).
    destruct x as [p|im|a|]; simpl in Hx; [| | |discriminate].
    + rewrite <- (Hgoal None eq_refl). unfold bind, assert_. rewrite Hx.
      rewrite <- app_assoc. reflexivity.
    + unfold bind. rewrite Hset. apply Hgoal. reflexivity.
    + unfold bind. rewrite Hset. apply Hgoal. reflexivity.
Qed.

Lemma ImageSequence_init_loop_all_ok fs (files : list img_input) log :
  forallb (asset_ok fs) files = true ->
  ImageSequence.__init__loop fs 0 files (replicate (length files) None) log
  = (Ok (map slot_of files), log).
Proof.
  intros Hok.
  pose proof (ImageSequence_init_loop_app fs files [] 0 [] log eq_refl Hok) as Happ.
  rewrite app_nil_r in Happ. simpl in Happ. rewrite Happ, app_nil_r.
  reflexivity.
Qed.

Lemma ImageSequence_init_loop_first_bad fs (pre : list img_input) x rest log :
  forallb (asset_ok fs) pre = true ->
  asset_ok fs x = false ->
  ImageSequence.__init__loop fs 0 (pre ++ x :: rest)
    (replicate (length (pre ++ x :: rest)) None) log
  = (Raise (asset_error x), log).
Proof.
  intros Hok Hbad.
  pose proof (ImageSequence_init_loop_app fs pre (x :: rest) 0 [] log eq_refl Hok)
    as Happ.
  simpl in Happ. rewrite Happ. simpl. unfold bind.
  destruct x as [p|im|a|]; simpl in Hbad; try discriminate.
  - unfold assert_. rewrite Hbad. reflexivity.
  - reflexivity.
Qed.

(** X1. [ImageSequence.__init__] succeeds exactly when the base class
    accepts the times, every path asset exists and no asset is of an
    unsupported type. It then decodes nothing and leaves one cache slot
    per asset: empty for a path, the RGBA conversion for an image object,
    the array itself for an array. *)
Theorem ImageSequence_init_succeeds_iff fs starts ends files log :
  (is_ok (fst (ImageSequence.__init__ fs starts ends files log)) = true <->
   is_ok (TimelineMixin_init starts ends) = true /\
   forallb (asset_ok fs) files = true) /\
  (forall s log',
     ImageSequence.__init__ fs starts ends files log = (Ok s, log') ->
     TimelineMixin_init starts ends = Ok (ImageSequence.timeline s) /\
     ImageSequence.img_files s = files /\
     ImageSequence.images s = map slot_of files /\
     log' = log).
Proof.
  split.
  - split.
    + destruct (ImageSequence.__init__ fs starts ends files log)
        as [[s|e] log'] eqn:Hinit; [intros _|discriminate].
      destruct (ImageSequence_init_ok _ _ _ _ _ _ _ Hinit)
        as (_ & _ & Hbase & _ & _).
      rewrite Hbase. split; [reflexivity|].
      unfold ImageSequence.__init__, bind, lift, ret in Hinit.
      rewrite Hbase in Hinit.
      destruct (ImageSequence.__init__loop fs 0 files
                  (replicate (length files) None) log)
        as [[images|e] log1] eqn:Hloop; [|discriminate].
      destruct (ImageSequence_init_loop_ok fs files 0 [] log images log1
                  eq_refl Hloop) as (_ & _ & Hall).
      apply forallb_forall. intros x Hin.
      rewrite Forall_forall in Hall. specialize (Hall x).
      rewrite list_elem_of_In in Hall. specialize (Hall Hin).
      destruct x; simpl; try reflexivity; [assumption|contradiction].
    + intros [Hbase Hok]. unfold ImageSequence.__init__, bind, lift, ret.
      destruct (TimelineMixin_init starts ends) as [base|e]; [|discriminate].
      rewrite (ImageSequence_init_loop_all_ok fs files log Hok). reflexivity.
  - intros s log' Hinit.
    destruct (ImageSequence_init_ok _ _ _ _ _ _ _ Hinit)
      as (Hf & Hi & Hb & Hl & _).
    auto.
Qed.

(** X2. When [ImageSequence.__init__] fails, the exception is that of the
    base class if it rejects the times, and otherwise that of the first
    asset that does not pass, in order: [AssertionError] for a path that
    does not exist, [ValueError] for a value of an unsupported type;
    what follows that asset is not looked at. Nothing is decoded. *)
Theorem ImageSequence_init_first_failure fs starts ends
    (pre : list img_input) (x : img_input) (rest : list img_input) log :
  forallb (asset_ok fs) pre = true ->
  asset_ok fs x = false ->
  ImageSequence.__init__ fs starts ends (pre ++ x :: rest) log =
  match TimelineMixin_init starts ends with
  | Ok _ => (Raise (asset_error x), log)
  | Raise e => (Raise e, log)
  end.
Proof.
  intros Hok Hbad. unfold ImageSequence.__init__, bind, lift.
  destruct (TimelineMixin_init starts ends) as [base|e]; [|reflexivity].
  rewrite (ImageSequence_init_loop_first_bad fs pre x rest log Hok Hbad).
  reflexivity.
Qed.

End SequenceInitOutcome.

Lemma ImageSequence_init_first_failure_witness :
  ImageSequence.__init__ Reference.fs_one [0; 1; 2]%Q [1; 2; 3]%Q
    ([InPath "a.png"%string; InArray gray_1x2]
       ++ InPath "b.png"%string :: [InOther]) []
  = (Raise (AssertionError (msg_does_not_exist "b.png"%string)), []).
Proof.
  apply (ImageSequence_init_first_failure (H := Reference.collaborators)
           Reference.fs_one [0; 1; 2]%Q [1; 2; 3]%Q
           [InPath "a.png"%string; InArray gray_1x2]
           (InPath "b.png"%string) [InOther] []);
    reflexivity.
Defined.

(** ** Every way a call of [ImageSequence.__call__] can go *)

Section SequenceCases.
Context `{Collaborators}.

Lemma ImageSequence_resolution_cases (time : Q) (st : Store ImageSequence.t) :
  let idx := get_state (ImageSequence.timeline (self st)) time in
  idx < 0 \/
  exists j : nat, idx = Z.of_nat j /\
    ((length (ImageSequence.images (self st)) <= j)%nat \/
     (exists b, ImageSequence.images (self st) !! j = Some (Some b)) \/
     (ImageSequence.images (self st) !! j = Some None /\
      ((exists p, ImageSequence.img_files (self st) !! j = Some (InPath p)) \/
       (forall p, ImageSequence.img_files (self st) !! j <> Some (InPath p))))).
Proof.
  intros idx. destruct (Z.lt_ge_cases idx 0) as [Hneg|Hnn]; [left; exact Hneg|].
  right. exists (Z.to_nat idx). split; [lia|].
  destruct (ImageSequence.images (self st) !! Z.to_nat idx) as [[b|]|] eqn:Hslot.
  - right. left. eauto.
  - right. right. split; [reflexivity|].
    destruct (ImageSequence.img_files (self st) !! Z.to_nat idx) as [[p|im|a|]|];
      [left; eauto|right; congruence ..].
  - left. apply lookup_ge_None. exact Hslot.
Qed.

Lemma ImageSequence_call_not_path fs (time : Q) (st : Store ImageSequence.t)
    (j : nat) :
  get_state (ImageSequence.timeline (self st)) time = Z.of_nat j ->
  ImageSequence.images (self st) !! j = Some None ->
  (forall p, ImageSequence.img_files (self st) !! j <> Some (InPath p)) ->
  exists e, ImageSequence.__call__ fs time st = (Raise e, st).
Proof.
  intros Hidx Hslot Hfile. unfold ImageSequence.__call__, bind, get_self. simpl.
  rewrite Hidx.
  destruct (Z.ltb_spec (Z.of_nat j) 0); [lia|].
  rewrite (list_get_nat _ _ _ _ Hslot). simpl.
  unfold list_get. rewrite list_index_nat.
  destruct (j <? length (ImageSequence.img_files (self st)))%nat;
    [|eexists; reflexivity].
  destruct (ImageSequence.img_files (self st) !! j) as [[p|im|a|]|] eqn:Hf;
    simpl; try (eexists; reflexivity).
  exfalso. exact (Hfile p eq_refl).
Qed.

(** What a returning call returned and left behind. *)
Lemma ImageSequence_call_ok fs (time : Q) (st st1 : Store ImageSequence.t) r :
  ImageSequence.__call__ fs time st = (Ok r, st1) ->
  (get_state (ImageSequence.timeline (self st)) time < 0 /\ r = None /\ st1 = st) \/
  (exists (j : nat) b,
     get_state (ImageSequence.timeline (self st)) time = Z.of_nat j /\
     r = Some b /\
     ImageSequence.images (self st1) !! j = Some (Some b) /\
     ImageSequence.timeline (self st1) = ImageSequence.timeline (self st)).
Proof.
  intros Hcall.
  destruct (ImageSequence_resolution_cases time st)
    as [Hneg|(j & Hidx & [Hge|[[b Hb]|[Hnone [[p Hp]|Hnp]]]])].
  - rewrite (ImageSequence_call_none fs time st Hneg) in Hcall.
    injection Hcall as <- <-. left. auto.
  - rewrite (ImageSequence_call_out_of_range fs time st j Hidx Hge) in Hcall.
    discriminate.
  - rewrite (ImageSequence_call_cached fs time st j b Hidx Hb) in Hcall.
    injection Hcall as <- <-. right. exists j, b. auto.
  - rewrite (ImageSequence_call_decode fs time st j p Hidx Hnone Hp) in Hcall.
    destruct (pil_open_rgba fs p) as [img|e]; [|discriminate].
    injection Hcall as <- <-. right. exists j, img. simpl.
    split; [exact Hidx|]. split; [reflexivity|]. split; [|reflexivity].
    apply list_lookup_insert_eq. apply lookup_lt_Some in Hnone. exact Hnone.
  - destruct (ImageSequence_call_not_path fs time st j Hidx Hnone Hnp) as [e He].
    rewrite He in Hcall. discriminate.
Qed.

Lemma ImageSequence_get_key_eq (time : Q) (st : Store ImageSequence.t) :
  ImageSequence.get_key time st =
  (Ok (if get_state (ImageSequence.timeline (self st)) time <? 0 then -1
       else get_state (ImageSequence.timeline (self st)) time), st).
Proof.
  unfold ImageSequence.get_key, bind, get_self, ret. simpl.
  destruct (get_state _ _ <? 0); reflexivity.
Qed.

(** X3. An image sequence answers [__call__] with "no image" exactly at
    the times where its key is [-1]; at every other time a returning call
    returns a buffer. Every negative answer of the interval lookup counts
    as [-1]. *)
Theorem ImageSequence_absent_iff_key fs (time : Q) (st : Store ImageSequence.t) :
  (fst (ImageSequence.__call__ fs time st) = Ok None <->
   fst (ImageSequence.get_key time st) = Ok (-1)) /\
  (fst (ImageSequence.get_key time st) = Ok (-1) <->
   get_state (ImageSequence.timeline (self st)) time < 0).
Proof.
  assert (Hkey : fst (ImageSequence.get_key time st) = Ok (-1) <->
                 get_state (ImageSequence.timeline (self st)) time < 0).
  { rewrite ImageSequence_get_key_eq. simpl.
    destruct (Z.ltb_spec (get_state (ImageSequence.timeline (self st)) time) 0)
      as [Hneg|Hnn].
    - tauto.
    - split; [intros [= Heq]; lia|lia]. }
  split; [|exact Hkey]. rewrite Hkey. split.
  - intros Hnone.
    destruct (ImageSequence.__call__ fs time st) as [r st1] eqn:Hcall.
    simpl in Hnone. subst r.
    destruct (ImageSequence_call_ok _ _ _ _ _ Hcall)
      as [(Hneg & _)|(j & b & _ & Hr & _)]; [exact Hneg|discriminate].
  - intros Hneg. rewrite (ImageSequence_call_none fs time st Hneg). reflexivity.
Qed.

(** X4. [ImageSequence.__call__] is idempotent per slot: after a call
    that returned, a call at any time that resolves to the same index
    returns the same result, whatever the files have become, and changes
    nothing and decodes nothing. *)
Theorem ImageSequence_call_idempotent fs fs' (time time' : Q)
    (st st1 : Store ImageSequence.t) (r : option ndarray) :
  ImageSequence.__call__ fs time st = (Ok r, st1) ->
  get_state (ImageSequence.timeline (self st)) time'
    = get_state (ImageSequence.timeline (self st)) time ->
  ImageSequence.__call__ fs' time' st1 = (Ok r, st1).
Proof.
  intros Hcall Hsame.
  destruct (ImageSequence_call_ok _ _ _ _ _ Hcall)
    as [(Hneg & -> & ->)|(j & b & Hidx & -> & Hslot & Ht)].
  - apply ImageSequence_call_none. rewrite Hsame. exact Hneg.
  - apply (ImageSequence_call_cached fs' time' st1 j b); [|exact Hslot].
    rewrite Ht, Hsame. exact Hidx.
Qed.

(** One call asks the codec for at most one file, and only for a path
    that is an asset of the sequence. *)
Lemma ImageSequence_call_opened fs (time : Q) (st : Store ImageSequence.t) :
  opened (snd (ImageSequence.__call__ fs time st)) = opened st \/
  exists p, InPath p ∈ ImageSequence.img_files (self st) /\
            opened (snd (ImageSequence.__call__ fs time st)) = opened st ++ [p].
Proof.
  destruct (ImageSequence_resolution_cases time st)
    as [Hneg|(j & Hidx & [Hge|[[b Hb]|[Hnone [[p Hp]|Hnp]]]])].
  - rewrite (ImageSequence_call_none fs time st Hneg). left. reflexivity.
  - rewrite (ImageSequence_call_out_of_range fs time st j Hidx Hge).
    left. reflexivity.
  - rewrite (ImageSequence_call_cached fs time st j b Hidx Hb). left. reflexivity.
  - rewrite (ImageSequence_call_decode fs time st j p Hidx Hnone Hp).
    right. exists p. split; [eapply list_elem_of_lookup_2; exact Hp|].
    destruct (pil_open_rgba fs p); reflexivity.
  - destruct (ImageSequence_call_not_path fs time st j Hidx Hnone Hnp) as [e He].
    rewrite He. left. reflexivity.
Qed.

(** X5. Along any run of [get_key] and [__call__] on an image sequence
    the record of decoded files only grows at its end, by at most one
    file per call, and every file added is a path asset of the sequence:
    no other file is ever opened. *)
Theorem ImageSequence_run_opens_assets (ops : list ImageSequence_op)
    (st : Store ImageSequence.t) :
  exists added : list path,
    opened (ImageSequence_run ops st) = opened st ++ added /\
    (length added <= length ops)%nat /\
    Forall (fun p => InPath p ∈ ImageSequence.img_files (self st)) added.
Proof.
  revert st. induction ops as [|op ops IH]; intros st.
  - exists []. simpl. rewrite app_nil_r. split; [reflexivity|].
    split; [lia|constructor].
  - change (ImageSequence_run (op :: ops) st)
      with (ImageSequence_run ops (ImageSequence_step st op)).
    destruct (IH (ImageSequence_step st op)) as (added & Hop & Hlen & Hall).
    destruct (ImageSequence_step_fills st op) as (_ & Hfiles & _).
    rewrite Hfiles in Hall.
    assert (Hstep : opened (ImageSequence_step st op) = opened st \/
                    exists p, InPath p ∈ ImageSequence.img_files (self st) /\
                              opened (ImageSequence_step st op) = opened st ++ [p]).
    { destruct op as [time|fs time]; simpl.
      - rewrite ImageSequence_get_key_eq. left. reflexivity.
      - apply ImageSequence_call_opened. }
    destruct Hstep as [Hsame|(p & Hp & Hadd)].
    + exists added. rewrite Hop, Hsame. split; [reflexivity|].
      split; [simpl; lia|exact Hall].
    + exists (p :: added). rewrite Hop, Hadd, <- app_assoc.
      split; [reflexivity|]. split; [simpl; lia|].
      constructor; assumption.
Qed.

End SequenceCases.

(** ** Further properties of still images *)

Section StillMore.
Context `{Collaborators}.

Lemma Image_read_image_cases fs (st : Store Image.t) :
  (exists b, Image.image (self st) = Some b /\
             Image._read_image fs st = (Ok (Some b), st)) \/
  (exists p, Image.image (self st) = None /\ Image._img_file (self st) = Some p /\
     Image._read_image fs st =
       match pil_open_rgba fs p with
       | Ok img =>
           (Ok (Some img),
            {| self := {| Image.image := Some img;
                          Image._img_file := Some p;
                          Image._duration := Image._duration (self st) |};
               opened := opened st ++ [p] |})
       | Raise e => (Raise e, {| self := self st; opened := opened st ++ [p] |})
       end) \/
  (Image.image (self st) = None /\ Image._img_file (self st) = None /\
   Image._read_image fs st = (Raise (AssertionError msg_none), st)).
Proof.
  destruct (Image.image (self st)) as [b|] eqn:Hc.
  - left. exists b. split; [reflexivity|]. apply Image_read_image_cached, Hc.
  - destruct (Image._img_file (self st)) as [p|] eqn:Hp.
    + right. left. exists p. split; [reflexivity|]. split; [reflexivity|].
      apply Image_read_image_decode; assumption.
    + right. right. split; [reflexivity|]. split; [reflexivity|].
      apply Image_read_image_no_source; assumption.
Qed.

Lemma Image_size_state fs (st : Store Image.t) :
  snd (Image.size fs st) = snd (Image._read_image fs st).
Proof.
  unfold Image.size, bind.
  destruct (Image._read_image fs st) as [[[b|]|e] st1]; simpl; try reflexivity.
  pose proof (list_get_state (take 2 (shape b)) 1 st1) as Hw.
  destruct (list_get (take 2 (shape b)) 1 st1) as [[w|e] s1];
    simpl in Hw; subst s1; [|reflexivity].
  pose proof (list_get_state (take 2 (shape b)) 0 st1) as Hh.
  destruct (list_get (take 2 (shape b)) 0 st1) as [[h|e] s1];
    simpl in Hh; subst s1; reflexivity.
Qed.

(** What a step leaves of the object: the source path and the duration
    always; the record of decoded files grows by the layer's own path or
    not at all. *)
Lemma Image_step_frame (st : Store Image.t) op :
  Image._duration (self (Image_step st op)) = Image._duration (self st) /\
  Image._img_file (self (Image_step st op)) = Image._img_file (self st) /\
  (opened (Image_step st op) = opened st \/
   exists p, Image._img_file (self st) = Some p /\
             opened (Image_step st op) = opened st ++ [p]).
Proof.
  assert (Hread : forall fs,
            Image._duration (self (snd (Image._read_image fs st)))
              = Image._duration (self st) /\
            Image._img_file (self (snd (Image._read_image fs st)))
              = Image._img_file (self st) /\
            (opened (snd (Image._read_image fs st)) = opened st \/
             exists p, Image._img_file (self st) = Some p /\
                       opened (snd (Image._read_image fs st)) = opened st ++ [p])).
  { intros fs.
    destruct (Image_read_image_cases fs st)
      as [(b & _ & ->)|[(p & _ & Hp & ->)|(_ & _ & ->)]]; simpl; auto.
    destruct (pil_open_rgba fs p); simpl; rewrite Hp; eauto 6. }
  destruct op as [time|fs time|fs]; simpl.
  - auto.
  - apply Hread.
  - rewrite Image_size_state. apply Hread.
Qed.

Lemma Image_run_cons op ops (st : Store Image.t) :
  Image_run (op :: ops) st = Image_run ops (Image_step st op).
Proof. reflexivity. Qed.

(** X6. A still image never opens a file other than the one it was built
    over: along any run of [get_key], [__call__] and [size] the record
    of decoded files only grows at its end, by at most one entry per
    call, each being the layer's own path; and a layer whose cache is
    filled (in particular one built from an array or an image object)
    opens nothing at all. *)
Theorem Image_run_opens_own_file (ops : list Image_op) (st : Store Image.t) :
  (exists added : list path,
     opened (Image_run ops st) = opened st ++ added /\
     (length added <= length ops)%nat /\
     Forall (fun p => Image._img_file (self st) = Some p) added) /\
  (is_Some (Image.image (self st)) -> opened (Image_run ops st) = opened st).
Proof.
  split.
  - revert st. induction ops as [|op ops IH]; intros st.
    + exists []. simpl. rewrite app_nil_r. split; [reflexivity|].
      split; [lia|constructor].
    + rewrite Image_run_cons.
      destruct (IH (Image_step st op)) as (added & Hop & Hlen & Hall).
      destruct (Image_step_frame st op) as (_ & Hfile & Hstep).
      rewrite Hfile in Hall.
      destruct Hstep as [Hsame|(p & Hp & Hadd)].
      * exists added. rewrite Hop, Hsame. split; [reflexivity|].
        split; [simpl; lia|exact Hall].
      * exists (p :: added). rewrite Hop, Hadd, <- app_assoc.
        split; [reflexivity|]. split; [simpl; lia|].
        constructor; assumption.
  - intros [b Hb]. rewrite (Image_run_cached ops st b Hb). reflexivity.
Qed.

(** X7. [size] and [__call__] of a still image agree: when [size]
    returns [(w, h)], the cache holds a buffer whose shape starts with
    [h, w], every later [__call__] returns that buffer and every later
    [size] returns [(w, h)] again, both as pure reads. *)
Theorem Image_size_agrees_with_call fs fs' (time : Q) (st st1 : Store Image.t)
    (w h : nat) :
  Image.size fs st = (Ok (w, h), st1) ->
  exists b rest,
    shape b = h :: w :: rest /\
    Image.image (self st1) = Some b /\
    Image.__call__ fs' time st1 = (Ok (Some b), st1) /\
    Image.size fs' st1 = (Ok (w, h), st1).
Proof.
  intros Hsize.
  pose proof (Image_size_state fs st) as Hst. rewrite Hsize in Hst. simpl in Hst.
  unfold Image.size, bind in Hsize.
  destruct (Image._read_image fs st) as [[r|e] st'] eqn:Hread; [|discriminate].
  simpl in Hst. subst st'.
  destruct (Image_call_ok fs 0 st st1 r Hread) as (b & -> & Hc & _).
  assert (Hshape : exists rest, shape b = h :: w :: rest).
  { destruct (shape b) as [|h' [|w' rest]]; try discriminate.
    simpl in Hsize. injection Hsize as <- <-. eauto. }
  destruct Hshape as [rest Hshape].
  exists b, rest. split; [exact Hshape|]. split; [exact Hc|].
  pose proof (Image_read_image_cached fs' st1 b Hc) as Hr.
  split; [exact Hr|].
  unfold Image.size, bind. rewrite Hr, Hshape. reflexivity.
Qed.

(** X8. A rank-3 array with 4 channels is taken as the buffer of the
    still image as it is, whatever its dtype and with no conversion:
    [__call__] returns that very array and [size] is [(w, h)]. *)
Theorem Image_rank3_passthrough fs fs' (a : ndarray) (h w : nat) (d time : Q)
    log opened :
  shape a = [h; w; 4%nat] ->
  let img := {| Image.image := Some a; Image._img_file := None;
                Image._duration := d |} in
  let st := {| self := img; opened := opened |} in
  Image.__init__ fs (InArray a) d log = (Ok img, log) /\
  Image.__call__ fs' time st = (Ok (Some a), st) /\
  Image.size fs' st = (Ok (w, h), st).
Proof.
  intros Hsh img st. split; [|split].
  - unfold Image.__init__, ndim. rewrite Hsh. reflexivity.
  - apply Image_read_image_cached. reflexivity.
  - unfold Image.size, bind.
    rewrite (Image_read_image_cached fs' st a eq_refl). rewrite Hsh. reflexivity.
Qed.

End StillMore.

(** ** Further properties of image sequences *)

Section SequenceMore.
Context `{Collaborators}.

(** X9. [ImageSequence.__init__] does not compare the number of
    intervals with the number of assets. At a time that the lookup
    resolves to an index at or beyond the number of assets, [get_key]
    answers that index while [__call__] raises [IndexError]; this is so
    at every point of any run, and the failing call changes nothing. *)
Theorem ImageSequence_index_beyond_assets fs0 fs starts ends files log s log'
    (ops : list ImageSequence_op) (time : Q) (i : nat) :
  ImageSequence.__init__ fs0 starts ends files log = (Ok s, log') ->
  get_state (ImageSequence.timeline s) time = Z.of_nat i ->
  (length files <= i)%nat ->
  let st := ImageSequence_run ops {| self := s; opened := log' |} in
  ImageSequence.get_key time st = (Ok (Z.of_nat i), st) /\
  ImageSequence.__call__ fs time st = (Raise IndexError, st).
Proof.
  intros Hinit Hidx Hge st.
  destruct (ImageSequence_init_ok _ _ _ _ _ _ _ Hinit) as (_ & Himg & _).
  destruct (ImageSequence_run_frame ops {| self := s; opened := log' |})
    as (Ht & _ & Hl & _ & _).
  fold st in Ht, Hl. simpl in Ht, Hl.
  split.
  - rewrite ImageSequence_get_key_eq, Ht, Hidx.
    destruct (Z.ltb_spec (Z.of_nat i) 0); [lia|reflexivity].
  - apply (ImageSequence_call_out_of_range fs time st i).
    + rewrite Ht. exact Hidx.
    + rewrite Hl, Himg, length_map. exact Hge.
Qed.



End SequenceMore.

Lemma ImageSequence_call_idempotent_witness :
  let st1 : Store ImageSequence.t :=
    {| self := @ImageSequence.Build_t Reference.collaborators
                 {| Reference.start_times := [0; 1]%Q;
                    Reference.end_times := [1; 2]%Q |}
                 two_assets
                 [Some (Reference.pixel 255 0 0 255); Some gray_1x2];
       opened := ["a.png"%string] |} in
  ImageSequence.__call__ Reference.fs_one 0 {| self := two_assets_seq; opened := [] |}
    = (Ok (Some (Reference.pixel 255 0 0 255)), st1) /\
  ImageSequence.__call__ Reference.fs_empty (1 # 2) st1
    = (Ok (Some (Reference.pixel 255 0 0 255)), st1).
Proof.
  intros st1.
  assert (Hcall : ImageSequence.__call__ Reference.fs_one 0
                    {| self := two_assets_seq; opened := [] |}
                  = (Ok (Some (Reference.pixel 255 0 0 255)), st1))
    by reflexivity.
  split; [exact Hcall|].
  apply (ImageSequence_call_idempotent (H := Reference.collaborators)
           Reference.fs_one Reference.fs_empty 0 (1 # 2) _ st1 _ Hcall).
  reflexivity.
Defined.

Lemma ImageSequence_index_beyond_assets_witness :
  let st : Store ImageSequence.t :=
    {| self := @ImageSequence.Build_t Reference.collaborators
                 {| Reference.start_times := [0; 1]%Q;
                    Reference.end_times := [1; 2]%Q |}
                 [InArray gray_1x2] [Some gray_1x2];
       opened := [] |} in
  ImageSequence.__init__ Reference.fs_empty [0; 1]%Q [1; 2]%Q [InArray gray_1x2] []
    = (Ok (self st), []) /\
  ImageSequence.get_key (3 # 2) st = (Ok 1, st) /\
  ImageSequence.__call__ Reference.fs_empty (3 # 2) st = (Raise IndexError, st).
Proof.
  intros st.
  assert (Hinit : ImageSequence.__init__ Reference.fs_empty [0; 1]%Q [1; 2]%Q
                    [InArray gray_1x2] [] = (Ok (self st), []))
    by reflexivity.
  split; [exact Hinit|].
  apply (ImageSequence_index_beyond_assets (H := Reference.collaborators)
           Reference.fs_empty Reference.fs_empty [0; 1]%Q [1; 2]%Q
           [InArray gray_1x2] [] (self st) [] [] (3 # 2) 1 Hinit);
    [reflexivity|simpl; lia].
Defined.


Lemma Image_size_agrees_with_call_witness :
  exists b rest,
    shape b = 1%nat :: 1%nat :: rest /\
    Image.__call__ Reference.fs_empty 3
      (snd (Image.size Reference.fs_one still_pending))
    = (Ok (Some b), snd (Image.size Reference.fs_one still_pending)).
Proof.
  destruct (Image_size_agrees_with_call (H := Reference.collaborators)
              Reference.fs_one Reference.fs_empty 3 still_pending
              (snd (Image.size Reference.fs_one still_pending)) 1 1 eq_refl)
    as (b & rest & Hsh & _ & Hcall & _).
  exists b, rest. split; [exact Hsh|exact Hcall].
Defined.

Lemma Image_rank3_passthrough_witness :
  let a := {| shape := [1; 1; 4]%nat; dtype_of := int64; data := [1; 2; 3; 4] |} in
  Image.__init__ Reference.fs_empty (InArray a) 1 []
    = (Ok {| Image.image := Some a; Image._img_file := None;
             Image._duration := 1 |}, []) /\
  dtype_of a = int64.
Proof.
  intros a. split; [|reflexivity].
  apply (Image_rank3_passthrough (H := Reference.collaborators)
           Reference.fs_empty Reference.fs_empty a 1 1 1 0 [] []).
  reflexivity.
Defined.

(** ** Further properties of videos *)

Section VideoMore.
Context `{Collaborators}.





Lemma Video_init_eq fs (file : path) :
  Video.__init__ fs file =
  match imageio_get_reader fs file with
  | Raise e => Raise e
  | Ok reader =>
      match get_meta_data reader with
      | Raise e => Raise e
      | Ok meta =>
          match meta_fps meta, meta_size meta, meta_nframes meta,
                meta_duration meta with
          | None, _, _, _ => Raise (KeyError "fps")
          | Some _, None, _, _ => Raise (KeyError "size")
          | Some _, Some _, None, _ => Raise (KeyError "nframes")
          | Some _, Some _, Some _, None => Raise (KeyError "duration")
          | Some fps, Some size, Some n_frame, Some duration =>
              Ok {| Video.video_file := file;
                    Video._reader := reader;
                    Video._fps := fps;
                    Video._size := size;
                    Video._n_frame := n_frame;
                    Video._duration := duration |}
          end
      end
  end.
Proof.
  unfold Video.__init__, run_pure, bind, lift, ret, dict_get.
  destruct (imageio_get_reader fs file) as [reader|e]; [|reflexivity].
  destruct (get_meta_data reader) as [meta|e]; [|reflexivity].
  destruct (meta_fps meta); [|reflexivity].
  destruct (meta_size meta); [|reflexivity].
  destruct (meta_nframes meta); [|reflexivity].
  destruct (meta_duration meta); reflexivity.
Qed.

(** X12. [Video.__init__] passes on an exception of [imageio.get_reader]
    or of [get_meta_data], and raises [KeyError] for the first of the
    keys [fps], [size], [nframes], [duration] that the metadata lack;
    otherwise it builds the video over that reader with those four
    values. If the frame rate [fps >= 0] and the duration [d] are finite,
    [get_key] of the built video returns [-1] exactly at the times
    outside [[0, d]], and at a time inside, when the float products of
    the time and of the duration with the frame rate are finite, a frame
    index between [0] and [floor] of the latter. *)
Theorem Video_init_keys fs (file : path) (t : Q) :
  match imageio_get_reader fs file with
  | Raise e => Video.__init__ fs file = Raise e
  | Ok reader =>
      match get_meta_data reader with
      | Raise e => Video.__init__ fs file = Raise e
      | Ok meta =>
          match meta_fps meta, meta_size meta, meta_nframes meta,
                meta_duration meta with
          | None, _, _, _ => Video.__init__ fs file = Raise (KeyError "fps")
          | Some _, None, _, _ =>
              Video.__init__ fs file = Raise (KeyError "size")
          | Some _, Some _, None, _ =>
              Video.__init__ fs file = Raise (KeyError "nframes")
          | Some _, Some _, Some _, None =>
              Video.__init__ fs file = Raise (KeyError "duration")
          | Some fps, Some size, Some n_frame, Some duration =>
              exists v,
                Video.__init__ fs file = Ok v /\
                Video._reader v = reader /\
                Video._fps v = fps /\ Video._size v = size /\
                Video._n_frame v = n_frame /\ Video._duration v = duration /\
                forall f d : Q,
                  fps = Finite f -> duration = Finite d -> (0 <= f)%Q ->
                  (fst (Video.get_key (Finite t) v) = Ok (-1) <->
                   (t < 0 \/ d < t)%Q) /\
                  forall p pd : Q,
                    (0 <= t /\ t <= d)%Q ->
                    float_mul (Finite t) fps = Finite p ->
                    float_mul duration fps = Finite pd ->
                    Video.get_key (Finite t) v = (Ok (Qfloor p), v) /\
                    0 <= Qfloor p <= Qfloor pd
          end
      end
  end.
Proof.
  rewrite Video_init_eq.
  destruct (imageio_get_reader fs file) as [reader|e]; [|reflexivity].
  destruct (get_meta_data reader) as [meta|e]; [|reflexivity].
  destruct (meta_fps meta) as [fps|]; [|reflexivity].
  destruct (meta_size meta) as [size|]; [|reflexivity].
  destruct (meta_nframes meta) as [n_frame|]; [|reflexivity].
  destruct (meta_duration meta) as [duration|]; [|reflexivity].
  eexists. split; [reflexivity|]. simpl. repeat (split; [reflexivity|]).
  intros f d -> -> Hf.
  set (v := {| Video.video_file := file; Video._reader := reader;
               Video._fps := Finite f; Video._size := size;
               Video._n_frame := n_frame; Video._duration := Finite d |}).
  assert (Hin : forall p, (0 <= t)%Q -> (t <= d)%Q ->
            float_mul (Finite t) (Finite f) = Finite p ->
            Video.get_key (Finite t) v = (Ok (Qfloor p), v) /\ (0 <= p)%Q).
  { intros p H0 Hle Hp.
    rewrite (Video_get_key_in_range v t d eq_refl H0 Hle). simpl.
    simpl in Hp. rewrite Hp. simpl.
    assert (Hx : (0 <= t * f)%Q) by (apply Qmult_le_0_compat; assumption).
    destruct (round64_mono_nonneg _ _ p p Hx (Qle_refl _) Hp Hp) as [Hp0 _].
    rewrite int_floor_nonneg by exact Hp0. split; [reflexivity|exact Hp0]. }
  split.
  - rewrite Video_get_key_eq. simpl.
    destruct (Qltb t 0) eqn:Hneg; simpl.
    + apply Qltb_lt in Hneg. tauto.
    + destruct (Qltb d t) eqn:Hafter.
      * apply Qltb_lt in Hafter. tauto.
      * apply Qltb_ge in Hneg, Hafter. split.
        -- destruct (round64 (t * f)) as [p| |] eqn:Hp; simpl;
             [|discriminate|discriminate].
           destruct (Hin p Hneg Hafter Hp) as [_ Hp0].
           rewrite int_floor_nonneg by exact Hp0.
           intros [= Heq]. exfalso.
           assert (H0f : 0 <= Qfloor p).
           { change 0 with (Qfloor 0). apply Qfloor_resp_le. exact Hp0. }
           lia.
        -- intros [Hlt|Hlt]; exfalso;
             [exact (Qlt_not_le _ _ Hlt Hneg)|exact (Qlt_not_le _ _ Hlt Hafter)].
  - intros p pd [H0 Hle] Hp Hpd.
    destruct (Hin p H0 Hle Hp) as [Hk Hp0].
    split; [exact Hk|]. split.
    + change 0 with (Qfloor 0). apply Qfloor_resp_le. exact Hp0.
    + apply Qfloor_resp_le. simpl in Hp, Hpd.
      assert (Hx : (0 <= t * f)%Q) by (apply Qmult_le_0_compat; assumption).
      assert (Hxy : (t * f <= d * f)%Q)
        by (apply Qmult_le_compat_r; assumption).
      exact (proj2 (round64_mono_nonneg _ _ p pd Hx Hxy Hp Hpd)).
Qed.

End VideoMore.

(** ** Keys do not depend on what was evaluated *)

Section KeysStable.
Context `{Collaborators}.

Lemma Image_run_duration (ops : list Image_op) (st : Store Image.t) :
  Image._duration (self (Image_run ops st)) = Image._duration (self st).
Proof.
  revert st. induction ops as [|op ops IH]; intros st; [reflexivity|].
  rewrite Image_run_cons, IH.
  destruct (Image_step_frame st op) as (Hd & _). exact Hd.
Qed.

(** X13. The key of a still image and of an image sequence at a time is
    the same after any run of calls as before it: filling a cache,
    decoding, or a call that raised do not move the visibility window of
    the image nor the intervals of the sequence. *)
Theorem get_key_stable (t : Q)
    (iops : list Image_op) (si : Store Image.t)
    (sops : list ImageSequence_op) (ss : Store ImageSequence.t) :
  fst (Image.get_key t (Image_run iops si)) = fst (Image.get_key t si) /\
  fst (ImageSequence.get_key t (ImageSequence_run sops ss))
    = fst (ImageSequence.get_key t ss).
Proof.
  split.
  - rewrite !Image_get_key_eq. simpl. rewrite Image_run_duration. reflexivity.
  - rewrite !ImageSequence_get_key_eq. simpl.
    destruct (ImageSequence_run_frame sops ss) as (-> & _). reflexivity.
Qed.

End KeysStable.

(** ** First evaluation of each kind of asset *)

Section SequenceFirstCall.
Context `{Collaborators}.

(** X15. On a freshly built image sequence, what [__call__] returns at a
    time resolving to index [i] is decided by asset [i]: an array is
    returned as it was given and an image object as its RGBA conversion,
    both without decoding; a path is decoded then, its buffer returned
    and stored in slot [i], or the decoder's exception raised with the
    object unchanged. *)
Theorem ImageSequence_first_call fs0 fs starts ends files log s log'
    (i : nat) (x : img_input) (time : Q) :
  ImageSequence.__init__ fs0 starts ends files log = (Ok s, log') ->
  files !! i = Some x ->
  get_state (ImageSequence.timeline s) time = Z.of_nat i ->
  let st := {| self := s; opened := log' |} in
  ImageSequence.__call__ fs time st =
  match x with
  | InArray a => (Ok (Some a), st)
  | InPIL im => (Ok (Some (pil_convert_rgba im)), st)
  | InPath p =>
      match pil_open_rgba fs p with
      | Ok img =>
          (Ok (Some img),
           {| self := {| ImageSequence.timeline := ImageSequence.timeline s;
                         ImageSequence.img_files := files;
                         ImageSequence.images :=
                           <[i := Some img]> (map slot_of files) |};
              opened := log' ++ [p] |})
      | Raise e => (Raise e, {| self := s; opened := log' ++ [p] |})
      end
  | InOther => (Raise (AssertionError msg_none), st)
  end.
Proof.
  intros Hinit Hfile Hidx st.
  destruct (ImageSequence_init_ok _ _ _ _ _ _ _ Hinit)
    as (Hfiles & Himg & _ & _ & Hother).
  assert (Hslot : ImageSequence.images (self st) !! i = Some (slot_of x)).
  { simpl. rewrite Himg, list_lookup_fmap, Hfile. reflexivity. }
  destruct x as [p|im|a|].
  - rewrite (ImageSequence_call_decode fs time st i p Hidx Hslot).
    + simpl. rewrite Himg, Hfiles. reflexivity.
    + simpl. rewrite Hfiles. exact Hfile.
  - apply (ImageSequence_call_cached fs time st i _ Hidx Hslot).
  - apply (ImageSequence_call_cached fs time st i _ Hidx Hslot).
  - exfalso. apply Hother. eapply list_elem_of_lookup_2. exact Hfile.
Qed.

End SequenceFirstCall.

Lemma ImageSequence_first_call_witness :
  ImageSequence.__call__ Reference.fs_one (3 # 2)
    {| self := two_assets_seq; opened := [] |}
  = (Ok (Some gray_1x2), {| self := two_assets_seq; opened := [] |}).
Proof.
  apply (ImageSequence_first_call (H := Reference.collaborators)
           Reference.fs_one Reference.fs_one [0; 1]%Q [1; 2]%Q two_assets []
           two_assets_seq [] 1 (InArray gray_1x2) (3 # 2) two_assets_init);
    reflexivity.
Defined.
